(** * tech2ai price agents: the valuation parser and the planning agent

    A shallow embedding of [price_agents/frontier_agent.py] and
    [price_agents/autonomous_planning_agent.py].

    - Python [float] is IEEE 754 binary64: [spec_float] with the operations of
      [SpecFloat] at precision 53, maximal exponent 1024.
    - Python [str] is a list of characters; the model covers ASCII text.
    - [re.search] is a backtracking matcher over a regular-expression syntax
      tree: ordered alternatives, greedy quantifiers.
    - The planner object, the external services and the calls made to them
      are an explicit state, threaded through a state-and-exception monad.
    - The decision process that drives a run is an arbitrary tree of
      capability invocations; what the tools do with an exception of a
      handler is a parameter of the run. *)

From Stdlib Require Import ZArith List String Ascii Bool Lia.
From Stdlib Require Import Floats.
Import ListNotations.

(* ================================================================= *)
(** ** Floating-point numbers *)

Definition float : Type := spec_float.

Module F64.

Definition add : float -> float -> float := SFadd prec emax.
Definition sub : float -> float -> float := SFsub prec emax.
Definition div : float -> float -> float := SFdiv prec emax.
Definition ltb : float -> float -> bool := SFltb.

(** A literal of the source, read as the binary64 value it denotes. *)
Definition lit (x : PrimFloat.float) : float := Prim2SF x.

Definition zero : float := S754_zero false.
Definition two : float := Eval vm_compute in lit 2.

Definition is_nan (x : float) : bool :=
  match x with S754_nan => true | _ => false end.

(** The binary64 value nearest to [m / 10^k] (ties to even), signed: what
    [float()] returns on a decimal numeral with digits [m] of which [k]
    stand after the point. *)
Definition of_decimal (neg : bool) (m : Z) (k : nat) : float :=
  match m with
  | Zpos p =>
      match Z.pow 10 (Z.of_nat k) with
      | Zpos q => div (S754_finite neg p 0) (S754_finite false q 0)
      | _ => S754_nan
      end
  | _ => S754_zero neg
  end.

End F64.

(* ================================================================= *)
(** ** Text *)

Definition text : Type := list ascii.

Definition chars (s : string) : text := list_ascii_of_string s.

Definition is_digit (c : ascii) : bool :=
  let n := nat_of_ascii c in (48 <=? n)%nat && (n <=? 57)%nat.

Definition is_sign (c : ascii) : bool :=
  Ascii.eqb c "-" || Ascii.eqb c "+".

Definition is_dot (c : ascii) : bool := Ascii.eqb c ".".

(** [s.replace(old, new)] for a one-character [old]. *)
Definition replace (old : ascii) (new : text) (s : text) : text :=
  flat_map (fun c => if Ascii.eqb c old then new else [c]) s.

Fixpoint take_while (p : ascii -> bool) (s : text) : text :=
  match s with
  | c :: s' => if p c then c :: take_while p s' else []
  | [] => []
  end.

Fixpoint drop_while (p : ascii -> bool) (s : text) : text :=
  match s with
  | c :: s' => if p c then drop_while p s' else s
  | [] => []
  end.

Definition digit_value (c : ascii) : Z := Z.of_nat (nat_of_ascii c) - 48.

(** The number a run of decimal digits denotes. *)
Definition digits_value (ds : text) : Z :=
  fold_left (fun acc c => 10 * acc + digit_value c)%Z ds 0%Z.

(* ================================================================= *)
(** ** Regular expressions: the fragment of [re] the parser uses *)

Inductive regex : Type :=
| Class (p : ascii -> bool)        (* one character of a class: \d, \., [-+] *)
| Opt (r : regex)                  (* r?   greedy *)
| Star (p : ascii -> bool)         (* c*   greedy, over a class *)
| Plus (p : ascii -> bool)         (* c+   greedy, over a class *)
| Seq (r1 r2 : regex)
| Alt (r1 r2 : regex).             (* r1|r2, r1 tried first *)

Section Matcher.
Variable A : Type.

(** [c*] then the continuation [k]: the longest run first, giving back one
    character at a time while [k] fails. *)
Fixpoint star_k (p : ascii -> bool) (s : text) (k : text -> option A)
  : option A :=
  match s with
  | c :: s' =>
      if p c then
        match star_k p s' k with
        | Some x => Some x
        | None => k s
        end
      else k s
  | [] => k []
  end.

(** Backtracking match of [r] at the head of [s], then [k] on what is
    left. *)
Fixpoint match_k (r : regex) (s : text) (k : text -> option A) : option A :=
  match r with
  | Class p =>
      match s with
      | c :: s' => if p c then k s' else None
      | [] => None
      end
  | Opt r1 =>
      match match_k r1 s k with
      | Some x => Some x
      | None => k s
      end
  | Star p => star_k p s k
  | Plus p =>
      match s with
      | c :: s' => if p c then star_k p s' k else None
      | [] => None
      end
  | Seq r1 r2 => match_k r1 s (fun s1 => match_k r2 s1 k)
  | Alt r1 r2 =>
      match match_k r1 s k with
      | Some x => Some x
      | None => match_k r2 s k
      end
  end.
End Matcher.

Arguments star_k {A} p s k.
Arguments match_k {A} r s k.

(** The match object of [re]: where the match starts and the text matched. *)
Record Match : Type := { start : nat; group : text }.

(** [pattern.match]: the text matched at the head of [s]. *)
Definition match_at (r : regex) (s : text) : option text :=
  match match_k r s (fun rest => Some rest) with
  | Some rest => Some (firstn (List.length s - List.length rest) s)
  | None => None
  end.

(** [re.search]: the match at the leftmost position that has one. *)
Fixpoint search_from (r : regex) (i : nat) (s : text) : option Match :=
  match match_at r s with
  | Some g => Some {| start := i; group := g |}
  | None =>
      match s with
      | _ :: s' => search_from r (S i) s'
      | [] => None
      end
  end.

Definition re_search (r : regex) (s : text) : option Match :=
  search_from r 0 s.

(* ================================================================= *)
(** ** FrontierAgent.get_price *)

(** r"[-+]?\d*\.\d+|\d+" *)
Definition price_pattern : regex :=
  Alt (Seq (Opt (Class is_sign))
         (Seq (Star is_digit) (Seq (Class is_dot) (Plus is_digit))))
      (Plus is_digit).

(** [float(s)] on decimal numerals without exponent: an optional sign, then
    digits with an optional point; [None] stands for [ValueError].  (Python
    also reads exponents, underscores, surrounding blanks and inf/nan; no
    match of [price_pattern] has them.) *)
Definition py_float (s : text) : option float :=
  let '(neg, body) :=
    match s with
    | c :: s' => if is_sign c then (Ascii.eqb c "-", s') else (false, s)
    | [] => (false, s)
    end in
  let ip := take_while is_digit body in
  match drop_while is_digit body with
  | [] =>
      match ip with
      | [] => None
      | _ => Some (F64.of_decimal neg (digits_value ip) 0)
      end
  | c :: r =>
      if is_dot c && forallb is_digit r && negb (match ip ++ r with [] => true | _ => false end)
      then Some (F64.of_decimal neg (digits_value (ip ++ r)) (List.length r))
      else None
  end.

Definition get_price (s : string) : option float :=
  let s := replace "," [] (replace "$" [] (chars s)) in
  match re_search price_pattern s with
  | Some m => py_float (group m)
  | None => Some F64.zero
  end.

(* ----------------------------------------------------------------- *)
(** *** The parser as the specification words it *)

(** An integer numeral: one digit or more. *)
Definition is_integer_numeral (l : text) : bool :=
  match l with
  | [] => false
  | _ => forallb is_digit l
  end.

(** [l] without its leading sign, if it has one. *)
Definition unsigned (l : text) : text :=
  match l with
  | c :: r => if is_sign c then r else l
  | [] => l
  end.

(** A floating-point numeral: an optional sign, digits (possibly none), a
    point, one digit or more. *)
Definition is_float_numeral (l : text) : bool :=
  match drop_while is_digit (unsigned l) with
  | c :: fp => is_dot c && is_integer_numeral fp
  | [] => false
  end.

Definition is_numeral (l : text) : bool :=
  is_float_numeral l || is_integer_numeral l.

(** The longest prefix of [s] that satisfies [P]. *)
Fixpoint longest_prefix (P : text -> bool) (s : text) : option text :=
  match s with
  | [] => if P [] then Some [] else None
  | c :: s' =>
      match longest_prefix (fun l => P (c :: l)) s' with
      | Some l => Some (c :: l)
      | None => if P [] then Some [] else None
      end
  end.

(** The first numeral of [s]: at the leftmost position where a numeral
    starts, the longest one. *)
Fixpoint first_numeral (s : text) : option text :=
  match longest_prefix is_numeral s with
  | Some l => Some l
  | None =>
      match s with
      | _ :: s' => first_numeral s'
      | [] => None
      end
  end.

(** The digits after the point of a numeral. *)
Definition fraction_digits (l : text) : text :=
  match drop_while (fun c => negb (is_dot c)) l with
  | _ :: fp => fp
  | [] => []
  end.

(** The value of a numeral: its digits read in base ten, scaled by the
    number of digits after the point, negated under a minus sign, and
    rounded to binary64. *)
Definition numeral_value (l : text) : float :=
  F64.of_decimal
    (match l with c :: _ => Ascii.eqb c "-" | [] => false end)
    (digits_value (filter is_digit l))
    (List.length (fraction_digits l)).

Definition strip_currency (s : text) : text :=
  filter (fun c => negb (Ascii.eqb c "$" || Ascii.eqb c ",")) s.

Definition get_price_spec (s : string) : float :=
  match first_numeral (strip_currency (chars s)) with
  | Some l => numeral_value l
  | None => F64.zero
  end.


(* ================================================================= *)
(** ** Deals and opportunities *)

(** Modelled from the spec: the Deal record, declared in
    [price_agents/deals.py], outside the two modules embedded here: a
    description, an offered price and a source locator.  The field names
    are those of the constructor call in [notify_user_of_deal]. *)
Record Deal : Type :=
  { product_description : string; price : float; url : string }.

(** Modelled from the spec: the Opportunity record of the same file: a
    Deal, an estimated true value and a discount.  The field names are
    those of the constructor call in [notify_user_of_deal]. *)
Record Opportunity : Type :=
  { deal : Deal; estimate : float; discount : float }.

(** Modelled from the spec: what the scanner returns when it returns
    something, a list of Deals. *)
Record DealSelection : Type := { deals : list Deal }.

(* ================================================================= *)
(** ** The program state, the external services and the monad *)

(** An exception, by its message. *)
Definition exn : Type := string.

Variant outcome (A : Type) : Type :=
| Returned (a : A)
| Raised (e : exn).

Arguments Returned {A} a.
Arguments Raised {A} e.

Definition is_raised {A : Type} (r : outcome A) : bool :=
  match r with Raised _ => true | Returned _ => false end.

(** A chat message of the completion service. *)
Record message : Type := { role : string; content : string }.

(** The result of [estimate_true_value], before [json.dumps]. *)
Record Estimate : Type :=
  { description : string; estimated_true_value : float }.

(** A call to one of the collaborators, with its arguments. *)
Variant service : Type :=
| Completion (model : string) (messages : list message) (max_tokens : option nat)
| Encode (sentences : list string)
| Query (query_embeddings : list (list float)) (n_results : nat)
| Scan (memory : option (list string))
| SpecialistPrice (description : string)
| Notify (description : string) (deal_price estimated_true_value : float)
    (url : string).

(** One call as it happened: what was called and whether it raised. *)
Record call : Type := { target : service; failed : bool }.

(** The capabilities offered to the decision process, with the arguments of
    one invocation. *)
Variant tool_call : Type :=
| scan_call
| estimate_call (description : string)
| notify_call (description : string) (deal_price estimated_true_value : float)
    (url : string).

Definition is_notify_call (c : tool_call) : bool :=
  match c with notify_call _ _ _ _ => true | _ => false end.

Definition is_notify (c : call) : bool :=
  match target c with Notify _ _ _ _ => true | _ => false end.

(** The collaborators, over the state [World] of everything outside the two
    agents: the scanner, the specialist model, the notification transport,
    the vector index, the embedding model and the completion service.  Each
    is a step on the world that returns or raises.  [MODEL] is the model
    name the frontier agent picked when it was set up.  The last three are
    the library formatters the agents call: [f"{x:.2f}"], pydantic's
    [model_dump_json] and [json.dumps]. *)
Record Services (World : Type) : Type :=
    { completion : string -> list message -> option nat ->
                   World -> outcome string * World;
      encode : list string -> World -> outcome (list (list float)) * World;
      query : list (list float) -> nat ->
              World -> outcome (list string * list float) * World;
      scan : option (list string) -> World -> outcome (option DealSelection) * World;
      specialist_price : string -> World -> outcome float * World;
      notify : string -> float -> float -> string -> World -> outcome unit * World;
      MODEL : string;
      format_2f : float -> string;
      model_dump_json : DealSelection -> string;
      json_dumps : Estimate -> string }.

Arguments completion {World} s model messages max_tokens w.
Arguments encode {World} s sentences w.
Arguments query {World} s query_embeddings n_results w.
Arguments scan {World} s memory w.
Arguments specialist_price {World} s description w.
Arguments notify {World} s description deal_price estimated_true_value url w.
Arguments MODEL {World} s.
Arguments format_2f {World} s x.
Arguments model_dump_json {World} s selection.
Arguments json_dumps {World} s result.

(** The planner object ([memory], [opportunity]), the world, and three
    records kept for the statements only: the log lines written, the calls
    made to the collaborators, and the capability invocations, each with the
    Opportunity slot as the handler found it. *)
Record State (World : Type) : Type :=
    { memory : option (list string);
      opportunity : option Opportunity;
      world : World;
      journal : list string;
      calls : list call;
      invocations : list (tool_call * option Opportunity) }.

Arguments memory {World} s.
Arguments opportunity {World} s.
Arguments world {World} s.
Arguments journal {World} s.
Arguments calls {World} s.
Arguments invocations {World} s.

(** The decision process, as the runner sees it: it ends with a final text,
    or invokes a capability and goes on from the text returned, or fails on
    its own (its completion service, its file service, its turn limit).  The
    order and number of invocations are its choice. *)
Inductive decision : Type :=
| Final (final_output : string)
| Invoke (c : tool_call) (next : string -> decision)
| Fail (e : exn).

Section Program.

Context {World : Type}.

(** A computation: from a state to a result or an exception, and the
    state it leaves.  Mutations made before an exception stay. *)
Definition M (A : Type) : Type := State World -> outcome A * State World.

Definition ret {A : Type} (a : A) : M A := fun st => (Returned a, st).

Definition raise {A : Type} (e : exn) : M A := fun st => (Raised e, st).

Definition bind {A B : Type} (m : M A) (f : A -> M B) : M B :=
  fun st =>
    match m st with
    | (Returned a, st') => f a st'
    | (Raised e, st') => (Raised e, st')
    end.

Definition log (msg : string) : M unit :=
  fun st =>
    (Returned tt,
     {| memory := memory st; opportunity := opportunity st;
        world := world st; journal := journal st ++ [msg];
        calls := calls st; invocations := invocations st |}).

Definition get_memory : M (option (list string)) :=
  fun st => (Returned (memory st), st).

Definition get_opportunity : M (option Opportunity) :=
  fun st => (Returned (opportunity st), st).

Definition set_memory (m : option (list string)) : M unit :=
  fun st =>
    (Returned tt,
     {| memory := m; opportunity := opportunity st;
        world := world st; journal := journal st;
        calls := calls st; invocations := invocations st |}).

Definition set_opportunity (o : option Opportunity) : M unit :=
  fun st =>
    (Returned tt,
     {| memory := memory st; opportunity := o;
        world := world st; journal := journal st;
        calls := calls st; invocations := invocations st |}).

(** A call to a collaborator: it steps the world and is recorded. *)
Definition call_service {A : Type} (sv : service)
  (f : World -> outcome A * World) : M A :=
  fun st =>
    let '(r, w) := f (world st) in
    (r,
     {| memory := memory st; opportunity := opportunity st;
        world := w; journal := journal st;
        calls := calls st ++ [{| target := sv; failed := is_raised r |}];
        invocations := invocations st |}).

(** The decision process invokes a capability: recorded with the slot as
    it stands. *)
Definition record_invocation (c : tool_call) : M unit :=
  fun st =>
    (Returned tt,
     {| memory := memory st; opportunity := opportunity st;
        world := world st; journal := journal st;
        calls := calls st;
        invocations := invocations st ++ [(c, opportunity st)] |}).

Variable E : Services World.

Local Notation "x <- m ;; k" := (bind m (fun x => k))
  (at level 61, m at next level, right associativity).
Local Notation "m ;;; k" := (bind m (fun _ => k))
  (at level 61, right associativity).
Local Open Scope string_scope.

Definition nl : string := String (ascii_of_nat 10) EmptyString.

(* --------------------------------------------------------------- *)
(** *** FrontierAgent *)

Definition PREPROCESS_MODEL : string := "groq/openai/gpt-oss-20b".

Definition make_context (similars : list string) (prices : list float)
  : string :=
  fold_left
    (fun message sp =>
       message ++ "Potentially related product:" ++ nl ++ fst sp ++ nl
               ++ "Price is $" ++ format_2f E (snd sp) ++ nl ++ nl)
    (combine similars prices)
    ("To provide some context, here are some other items that might be similar to the item you need to estimate."
       ++ nl ++ nl).

Definition messages_for (description : string) (similars : list string)
  (prices : list float) : list message :=
  let system_message :=
    "You estimate prices of items. Reply only with the price, no explanation" in
  let user_prompt := make_context similars prices in
  let user_prompt := user_prompt ++ "And now the question for you:" ++ nl ++ nl in
  let user_prompt :=
    user_prompt ++ "How much does this cost?" ++ nl ++ nl ++ description in
  [ {| role := "system"; content := system_message |};
    {| role := "user"; content := user_prompt |};
    {| role := "assistant"; content := "Price is $" |} ]%list.

Definition preprocess (item : string) : M string :=
  let message :=
    "Reply with a 2-3 sentence summary of this product. This will be used to find similar products so it should be clear, concise, complete. Details:"
      ++ nl ++ item in
  let messages := [ {| role := "user"; content := message |} ]%list in
  call_service (Completion PREPROCESS_MODEL messages None)
    (completion E PREPROCESS_MODEL messages None).

Definition find_similars (description : string)
  : M (list string * list float) :=
  log ("Frontier Agent is preprocessing with " ++ PREPROCESS_MODEL) ;;;
  preprocessed <- preprocess description ;;
  log "Frontier Agent is vectorizing using all-MiniLM-L6-v2" ;;;
  vector <- call_service (Encode [preprocessed]%list)
              (encode E [preprocessed]%list) ;;
  log "Frontier Agent is performing a RAG search of Chroma to find similar products" ;;;
  results <- call_service (Query vector 5) (query E vector 5) ;;
  log "Frontier Agent has found similar products" ;;;
  ret results.

(** [get_price] inside a computation: [float()] raising is an exception. *)
Definition get_price_m (reply : string) : M float :=
  match get_price reply with
  | Some x => ret x
  | None => raise "ValueError"
  end.

Definition frontier_price (description : string) : M float :=
  dp <- find_similars description ;;
  log ("Frontier Agent is calling " ++ MODEL E ++ " with 5 similar products") ;;;
  let messages := messages_for description (fst dp) (snd dp) in
  reply <- call_service (Completion (MODEL E) messages (Some 8))
             (completion E (MODEL E) messages (Some 8)) ;;
  result <- get_price_m reply ;;
  log ("Frontier Agent completed - predicting $" ++ format_2f E result) ;;;
  ret result.

(* --------------------------------------------------------------- *)
(** *** The capability handlers of the planning agent *)

Definition scan_the_internet_for_bargains : M string :=
  log "Autonomous Planning agent is calling scanner" ;;;
  mem <- get_memory ;;
  results <- call_service (Scan mem) (scan E mem) ;;
  ret (match results with
       | Some r => model_dump_json E r
       | None => ""
       end).

Definition estimate_true_value (description : string) : M string :=
  log "Autonomous Planning agent is estimating value" ;;;
  estimate1 <- frontier_price description ;;
  estimate2 <- call_service (SpecialistPrice description)
                 (specialist_price E description) ;;
  let estimate := F64.div (F64.add estimate1 estimate2) F64.two in
  let result :=
    {| description := description; estimated_true_value := estimate |} in
  ret (json_dumps E result).

Definition notify_user_of_deal (description : string) (deal_price : float)
  (estimated_true_value : float) (url : string) : M string :=
  slot <- get_opportunity ;;
  match slot with
  | Some _ =>
      log "Autonomous Planning agent is trying to notify the user a 2nd time; ignoring"
  | None =>
      log "Autonomous Planning agent is notifying user" ;;;
      call_service (Notify description deal_price estimated_true_value url)
        (notify E description deal_price estimated_true_value url) ;;;
      let deal :=
        {| product_description := description; price := deal_price;
           url := url |} in
      let discount := F64.sub estimated_true_value deal_price in
      set_opportunity
        (Some {| deal := deal; estimate := estimated_true_value;
                 discount := discount |})
  end ;;;
  ret "notification sent".

Definition handler (c : tool_call) : M string :=
  match c with
  | scan_call => scan_the_internet_for_bargains
  | estimate_call description => estimate_true_value description
  | notify_call description deal_price estimated_true_value url =>
      notify_user_of_deal description deal_price estimated_true_value url
  end.

(* --------------------------------------------------------------- *)
(** *** The agent runner *)

(** [@function_tool]: the decorator's [failure_error_function].  With a
    function, an exception raised by the handler becomes the text that the
    tool returns to the decision process; with [None] it is raised again.
    The decorator's own default is [default_tool_error_function]; the
    source applies the decorator bare. *)
Variable failure_error_function : option (exn -> string).

Definition default_tool_error_function (e : exn) : string :=
  "An error occurred while running the tool. Please try again. Error: " ++ e.

Definition function_tool (f : M string) : M string :=
  fun st =>
    match f st with
    | (Returned v, st') => (Returned v, st')
    | (Raised e, st') =>
        match failure_error_function with
        | Some report => (Returned (report e), st')
        | None => (Raised e, st')
        end
    end.

(** [Runner.run]: drive the decision process to its end. *)
Fixpoint Runner_run (d : decision) : M string :=
  match d with
  | Final final_output => ret final_output
  | Fail e => raise e
  | Invoke c next =>
      record_invocation c ;;;
      out <- function_tool (handler c) ;;
      Runner_run (next out)
  end.

(* --------------------------------------------------------------- *)
(** *** AutonomousPlanningAgent *)

(** Both branches of [run_async_task] run the coroutine to completion on
    one event loop; which loop is not part of this model. *)
Definition run_async_task {A : Type} (coro : M A) : M A := coro.

Definition go (d : decision) : M string := Runner_run d.

Definition plan (d : decision) (memory : list string)
  : M (option Opportunity) :=
  log "Autonomous Planning Agent is kicking off a run" ;;;
  set_memory (Some memory) ;;;
  set_opportunity None ;;;
  reply <- run_async_task (go d) ;;
  log ("Autonomous Planning Agent completed with: " ++ reply) ;;;
  get_opportunity.

End Program.

(* ================================================================= *)
(** ** A concrete world, to run the agents on

    The scenario of the specification: the scanner lists one deal, Widget X
    at 20.0 from http://x, and both estimators value it at 50.0. *)

Module Demo.

(** What the services will do: how many notification attempts still
    fail, whether the scanner is down, what it lists, and what the pricing
    model replies. *)
Record World : Type :=
  { push_failures : nat;
    scanner_down : bool;
    listings : option DealSelection;
    reply : string }.

Definition twenty : float := Eval vm_compute in F64.lit 20.
Definition thirty : float := Eval vm_compute in F64.lit 30.
Definition fifty : float := Eval vm_compute in F64.lit 50.

Definition widget : Deal :=
  {| product_description := "Widget X"; price := twenty; url := "http://x" |}.

Definition services : Services World :=
  {| completion := fun _ _ _ w => (Returned (reply w), w);
     encode := fun _ w => (Returned [[F64.zero]], w);
     query := fun _ _ w => (Returned (["A widget much like it"%string], [fifty]), w);
     scan := fun _ w =>
               if scanner_down w then (Raised "scanner unavailable"%string, w)
               else (Returned (listings w), w);
     specialist_price := fun _ w => (Returned fifty, w);
     notify := fun _ _ _ _ w =>
                 match push_failures w with
                 | O => (Returned tt, w)
                 | S n =>
                     (Raised "push failed"%string,
                      {| push_failures := n; scanner_down := scanner_down w;
                         listings := listings w; reply := reply w |})
                 end;
     MODEL := "gpt-4.1-mini";
     format_2f := fun _ => "50.00"%string;
     model_dump_json := fun _ => "deals"%string;
     json_dumps := fun r => description r |}.

(** Every service up, one listing, the pricing model replies 50.00. *)
Definition calm : World :=
  {| push_failures := 0; scanner_down := false;
     listings := Some {| deals := [widget] |}; reply := "50.00" |}.

(** The scanner finds nothing. *)
Definition barren : World :=
  {| push_failures := 0; scanner_down := false;
     listings := None; reply := "50.00" |}.

(** The scanner is down. *)
Definition scanner_out : World :=
  {| push_failures := 0; scanner_down := true;
     listings := None; reply := "50.00" |}.

(** The first notification attempt fails, the next one goes through. *)
Definition flaky : World :=
  {| push_failures := 1; scanner_down := false;
     listings := Some {| deals := [widget] |}; reply := "50.00" |}.

(** The pricing model replies without a number. *)
Definition vague : World :=
  {| push_failures := 0; scanner_down := false;
     listings := Some {| deals := [widget] |}; reply := "no digits here" |}.

(** The planner as [__init__] leaves it. *)
Definition init (w : World) : State World :=
  {| memory := None; opportunity := None; world := w;
     journal := []; calls := []; invocations := [] |}.

Definition opp : Opportunity :=
  {| deal := widget; estimate := fifty; discount := thirty |}.

(** The planner in the middle of a run, the Opportunity captured. *)
Definition holding : State World :=
  {| memory := Some []; opportunity := Some opp; world := calm;
     journal := []; calls := []; invocations := [] |}.

(** Scan, estimate, notify, then a second notify with other values. *)
Definition scenario : decision :=
  Invoke scan_call (fun _ =>
  Invoke (estimate_call "Widget X") (fun _ =>
  Invoke (notify_call "Widget X" twenty fifty "http://x") (fun _ =>
  Invoke (notify_call "Gadget Y" fifty twenty "http://y") (fun _ =>
  Final "OK")))).

(** Scan, then stop. *)
Definition scan_only : decision :=
  Invoke scan_call (fun _ => Final "OK").

(** Notify, then scan, then stop. *)
Definition notify_then_scan : decision :=
  Invoke (notify_call "Widget X" twenty fifty "http://x") (fun _ =>
  Invoke scan_call (fun _ => Final "OK")).

(** Notify; when the tool does not answer that the notification was
    sent, notify once more. *)
Definition notify_with_retry : decision :=
  Invoke (notify_call "Widget X" twenty fifty "http://x") (fun out =>
    if String.eqb out "notification sent" then Final "OK"
    else Invoke (notify_call "Widget X" twenty fifty "http://x")
           (fun _ => Final "OK")).

End Demo.
(* ================================================================= *)
(** * Proofs *)

(** ** Character classes *)

Lemma digit_not_sign c : is_digit c = true -> is_sign c = false.
Proof. destruct c as [[] [] [] [] [] [] [] []]; vm_compute; congruence. Qed.

Lemma digit_not_dot c : is_digit c = true -> is_dot c = false.
Proof. destruct c as [[] [] [] [] [] [] [] []]; vm_compute; congruence. Qed.

Lemma sign_not_dot c : is_sign c = true -> is_dot c = false.
Proof. destruct c as [[] [] [] [] [] [] [] []]; vm_compute; congruence. Qed.

Lemma sign_not_digit c : is_sign c = true -> is_digit c = false.
Proof. destruct c as [[] [] [] [] [] [] [] []]; vm_compute; congruence. Qed.

Lemma dot_not_sign c : is_dot c = true -> is_sign c = false.
Proof. destruct c as [[] [] [] [] [] [] [] []]; vm_compute; congruence. Qed.

(** ** Runs of a class *)

Lemma take_drop_while p s : take_while p s ++ drop_while p s = s.
Proof.
  induction s as [|c s IH]; simpl; [reflexivity|].
  destruct (p c); simpl; [now rewrite IH | reflexivity].
Qed.

Lemma take_while_all p s : forallb p (take_while p s) = true.
Proof.
  induction s as [|c s IH]; simpl; [reflexivity|].
  destruct (p c) eqn:E; simpl; [now rewrite E | reflexivity].
Qed.

Lemma drop_while_app p l r :
  forallb p l = true -> drop_while p (l ++ r) = drop_while p r.
Proof.
  induction l as [|c l IH]; simpl; [reflexivity|].
  intros H. apply andb_prop in H as [Hc Hl]. now rewrite Hc, IH.
Qed.

Lemma take_while_app p l c r :
  forallb p l = true -> p c = false -> take_while p (l ++ c :: r) = l.
Proof.
  induction l as [|d l IH]; simpl; intros H Hc.
  - now rewrite Hc.
  - apply andb_prop in H as [Hd Hl]. now rewrite Hd, IH.
Qed.

Lemma drop_while_length p s : (List.length (drop_while p s) <= List.length s)%nat.
Proof.
  induction s as [|c s IH]; simpl; [lia|].
  destruct (p c); simpl; lia.
Qed.

Lemma drop_while_stop p c r : p c = false -> drop_while p (c :: r) = c :: r.
Proof. intros H; simpl; now rewrite H. Qed.

(** ** The matcher on [price_pattern], in closed form *)

Lemma star_k_skip (A : Type) p s (k : text -> option A) :
  (forall c r, p c = true -> k (c :: r) = None) ->
  star_k p s k = k (drop_while p s).
Proof.
  intros Hk. induction s as [|c s IH]; simpl; [reflexivity|].
  destruct (p c) eqn:Hc; [|reflexivity].
  rewrite IH. destruct (k (drop_while p s)) eqn:E; [reflexivity|].
  now apply Hk.
Qed.

Lemma star_k_all p s :
  star_k p s (fun rest => Some rest) = Some (drop_while p s).
Proof.
  induction s as [|c s IH]; simpl; [reflexivity|].
  destruct (p c); [now rewrite IH | reflexivity].
Qed.

(** What is left of [s] after a floating-point numeral at its head. *)
Definition float_rest (s : text) : option text :=
  match drop_while is_digit (unsigned s) with
  | c :: d :: r =>
      if is_dot c && is_digit d then Some (drop_while is_digit r) else None
  | _ => None
  end.

(** What is left of [s] after an integer numeral at its head. *)
Definition integer_rest (s : text) : option text :=
  match s with
  | c :: r => if is_digit c then Some (drop_while is_digit r) else None
  | [] => None
  end.

Definition price_rest (s : text) : option text :=
  match float_rest s with
  | Some r => Some r
  | None => integer_rest s
  end.

Definition after_point (s2 : text) : option text :=
  match_k (Seq (Class is_dot) (Plus is_digit)) s2 (fun rest => Some rest).

Lemma after_point_digit c r : is_digit c = true -> after_point (c :: r) = None.
Proof.
  intros H. unfold after_point. simpl. now rewrite (digit_not_dot _ H).
Qed.

Lemma after_point_eq s :
  after_point s =
  match s with
  | c :: d :: r =>
      if is_dot c && is_digit d then Some (drop_while is_digit r) else None
  | _ => None
  end.
Proof.
  unfold after_point. destruct s as [|c [|d r]]; simpl; try reflexivity.
  - now destruct (is_dot c).
  - destruct (is_dot c); simpl; [|reflexivity].
    destruct (is_digit d); [apply star_k_all | reflexivity].
Qed.

Lemma match_float_alternative s :
  match_k (Seq (Opt (Class is_sign))
             (Seq (Star is_digit) (Seq (Class is_dot) (Plus is_digit))))
    s (fun rest => Some rest) = float_rest s.
Proof.
  assert (K : forall t,
             star_k is_digit t after_point = after_point (drop_while is_digit t)).
  { intros t. apply star_k_skip. intros c r H. now apply after_point_digit. }
  change (match
             match s with
             | [] => None
             | c :: s' =>
                 if is_sign c then star_k is_digit s' after_point else None
             end
           with
           | Some x => Some x
           | None => star_k is_digit s after_point
           end = float_rest s).
  unfold float_rest. rewrite <- after_point_eq.
  destruct s as [|c r]; [apply K|]. unfold unsigned.
  destruct (is_sign c) eqn:Hs; [|apply K].
  rewrite !K. destruct (after_point (drop_while is_digit r)); [reflexivity|].
  rewrite drop_while_stop by now apply sign_not_digit.
  rewrite after_point_eq. destruct r; [reflexivity|].
  now rewrite (sign_not_dot _ Hs).
Qed.

Lemma match_integer_alternative s :
  match_k (Plus is_digit) s (fun rest => Some rest) = integer_rest s.
Proof.
  destruct s as [|c r]; simpl; [reflexivity|].
  destruct (is_digit c); [apply star_k_all | reflexivity].
Qed.

Lemma match_price_pattern s :
  match_k price_pattern s (fun rest => Some rest) = price_rest s.
Proof.
  unfold price_rest.
  rewrite <- match_float_alternative, <- match_integer_alternative.
  reflexivity.
Qed.

(** ** The closed form and the numerals *)

Lemma dot_not_digit c : is_dot c = true -> is_digit c = false.
Proof. destruct c as [[] [] [] [] [] [] [] []]; vm_compute; congruence. Qed.

Lemma float_numeral_intro ip c d fp :
  forallb is_digit ip = true -> is_dot c = true ->
  is_digit d = true -> forallb is_digit fp = true ->
  is_float_numeral (ip ++ c :: d :: fp) = true.
Proof.
  intros Hip Hc Hd Hfp. unfold is_float_numeral.
  assert (B : unsigned (ip ++ c :: d :: fp) = ip ++ c :: d :: fp).
  { destruct ip as [|e ip]; simpl.
    - now rewrite (dot_not_sign _ Hc).
    - simpl in Hip. apply andb_prop in Hip as [He _].
      now rewrite (digit_not_sign _ He). }
  rewrite B, drop_while_app by assumption.
  rewrite drop_while_stop by now apply dot_not_digit.
  rewrite Hc. simpl. now rewrite Hd, Hfp.
Qed.

Lemma signed_float_numeral sg l :
  is_sign sg = true -> is_float_numeral l = true ->
  (match l with c :: _ => is_sign c | [] => false end) = false ->
  is_float_numeral (sg :: l) = true.
Proof.
  intros Hs Hl Hh. unfold is_float_numeral in *. simpl. rewrite Hs.
  destruct l as [|c r]; [discriminate|]. simpl in Hl. now rewrite Hh in Hl.
Qed.

Lemma after_point_sound body rest :
  after_point (drop_while is_digit body) = Some rest ->
  exists l, body = l ++ rest /\ is_float_numeral l = true /\
            (match l with c :: _ => is_sign c | [] => false end) = false.
Proof.
  rewrite after_point_eq. intros H.
  destruct (drop_while is_digit body) as [|c [|d r]] eqn:E; try discriminate.
  destruct (is_dot c) eqn:Hc; [|discriminate].
  destruct (is_digit d) eqn:Hd; [|discriminate].
  injection H as <-.
  exists (take_while is_digit body ++ c :: d :: take_while is_digit r).
  split; [|split].
  - rewrite <- app_assoc. simpl. rewrite take_drop_while, <- E.
    now rewrite take_drop_while.
  - apply float_numeral_intro; auto using take_while_all.
  - pose proof (take_while_all is_digit body) as T.
    destruct (take_while is_digit body) as [|e ip]; simpl.
    + now apply dot_not_sign.
    + simpl in T. apply andb_prop in T as [He _]. now apply digit_not_sign.
Qed.

Lemma float_rest_sound s rest :
  float_rest s = Some rest ->
  exists l, s = l ++ rest /\ is_float_numeral l = true.
Proof.
  unfold float_rest. rewrite <- after_point_eq. intros H.
  apply after_point_sound in H as (l & Hb & Hl & Hh).
  destruct s as [|c r]; simpl in Hb.
  - exists l. now split.
  - destruct (is_sign c) eqn:Hs.
    + exists (c :: l). split; [now rewrite Hb|].
      now apply signed_float_numeral.
    + exists l. now split.
Qed.

Lemma integer_rest_sound s rest :
  integer_rest s = Some rest ->
  exists l, s = l ++ rest /\ is_integer_numeral l = true.
Proof.
  destruct s as [|c r]; simpl; [discriminate|].
  destruct (is_digit c) eqn:Hc; [|discriminate].
  intros H. injection H as <-.
  exists (c :: take_while is_digit r). split.
  - simpl. now rewrite take_drop_while.
  - simpl. now rewrite Hc, take_while_all.
Qed.

Lemma price_rest_sound s rest :
  price_rest s = Some rest ->
  exists l, s = l ++ rest /\ is_numeral l = true.
Proof.
  unfold price_rest, is_numeral. destruct (float_rest s) as [r0|] eqn:F.
  - intros H. injection H as <-.
    apply float_rest_sound in F as (l & -> & Hl).
    exists l. now rewrite Hl.
  - intros H. apply integer_rest_sound in H as (l & -> & Hl).
    exists l. rewrite Hl. now rewrite orb_true_r.
Qed.

Lemma unsigned_app l r : l <> [] -> unsigned (l ++ r) = unsigned l ++ r.
Proof.
  destruct l as [|c l]; [congruence|]. intros _. simpl.
  now destruct (is_sign c).
Qed.

Lemma float_rest_complete l r :
  is_float_numeral l = true ->
  exists rest, float_rest (l ++ r) = Some rest /\
               (List.length rest <= List.length r)%nat.
Proof.
  unfold is_float_numeral, float_rest. intros H.
  assert (Hl : l <> []) by (intros ->; discriminate).
  rewrite (unsigned_app l r Hl).
  rewrite <- (take_drop_while is_digit (unsigned l)), <- app_assoc.
  rewrite drop_while_app by apply take_while_all.
  destruct (drop_while is_digit (unsigned l)) as [|c fp] eqn:E; [discriminate|].
  apply andb_prop in H as [Hc Hfp].
  destruct fp as [|d fp]; [discriminate|]. simpl in Hfp.
  apply andb_prop in Hfp as [Hd Hfp].
  simpl app. rewrite drop_while_stop by now apply dot_not_digit.
  rewrite Hc, Hd. simpl. eexists. split; [reflexivity|].
  rewrite drop_while_app by assumption. apply drop_while_length.
Qed.

Lemma integer_numeral_digits l :
  is_integer_numeral l = true -> l <> [] /\ forallb is_digit l = true.
Proof. destruct l; [discriminate|]. intros H. split; [congruence|exact H]. Qed.

Lemma price_rest_complete l r :
  is_numeral l = true ->
  exists rest, price_rest (l ++ r) = Some rest /\
               (List.length rest <= List.length r)%nat.
Proof.
  unfold is_numeral, price_rest. intros H.
  destruct (is_float_numeral l) eqn:F.
  - destruct (float_rest_complete l r F) as (rest & -> & Hlen). eauto.
  - simpl in H. apply integer_numeral_digits in H as [Hne Hd].
    destruct l as [|d ds]; [congruence|]. simpl in Hd.
    apply andb_prop in Hd as [Hd Hds].
    destruct (float_rest ((d :: ds) ++ r)) as [rest|] eqn:E.
    + exists rest. split; [reflexivity|].
      unfold float_rest in E. simpl app in E. simpl unsigned in E.
      rewrite (digit_not_sign _ Hd) in E. simpl drop_while in E.
      rewrite Hd, drop_while_app in E by assumption.
      pose proof (drop_while_length is_digit r) as L.
      destruct (drop_while is_digit r) as [|c [|d2 r2]]; try discriminate.
      destruct (is_dot c && is_digit d2); [|discriminate].
      injection E as <-. pose proof (drop_while_length is_digit r2).
      simpl in L. lia.
    + simpl. rewrite Hd. eexists. split; [reflexivity|].
      rewrite drop_while_app by assumption. apply drop_while_length.
Qed.

(** ** The longest prefix *)

Lemma longest_prefix_none P s :
  longest_prefix P s = None ->
  forall l r, s = l ++ r -> P l = false.
Proof.
  revert P. induction s as [|c s IH]; intros P; simpl.
  - destruct (P []) eqn:E; [discriminate|]. intros _ l r H.
    symmetry in H. now apply app_eq_nil in H as [-> _].
  - destruct (longest_prefix (fun l0 => P (c :: l0)) s) eqn:E; [discriminate|].
    destruct (P []) eqn:E0; [discriminate|]. intros _ l r H.
    destruct l as [|c' l]; [assumption|].
    simpl in H. injection H as <- H.
    exact (IH _ E l r H).
Qed.

Lemma longest_prefix_some P s l :
  longest_prefix P s = Some l ->
  (exists r, s = l ++ r) /\ P l = true /\
  forall l' r', s = l' ++ r' -> P l' = true ->
                (List.length l' <= List.length l)%nat.
Proof.
  revert P l. induction s as [|c s IH]; intros P l; simpl.
  - destruct (P []) eqn:E; [|discriminate]. intros H. injection H as <-.
    repeat split; [now exists [] | assumption |].
    intros l' r' H _. symmetry in H. apply app_eq_nil in H as [-> _]. simpl; lia.
  - destruct (longest_prefix (fun l0 => P (c :: l0)) s) as [l0|] eqn:E.
    + intros H. injection H as <-.
      apply IH in E as ((r & ->) & HP & Hmax).
      repeat split; [now exists r | assumption |].
      intros l' r' H HP'. destruct l' as [|c' l']; [simpl; lia|].
      simpl in H. injection H as <- H. simpl.
      apply le_n_S. now apply (Hmax l' r').
    + destruct (P []) eqn:E0; [|discriminate]. intros H. injection H as <-.
      repeat split; [now exists (c :: s) | assumption |].
      intros l' r' H HP'. destruct l' as [|c' l']; [simpl; lia|].
      simpl in H. injection H as <- H.
      rewrite (longest_prefix_none _ _ E l' r' H) in HP'. discriminate.
Qed.

Lemma same_length_prefix (l1 l2 r1 r2 : text) :
  l1 ++ r1 = l2 ++ r2 -> List.length l1 = List.length l2 -> l1 = l2.
Proof.
  revert l2. induction l1 as [|c l1 IH]; intros [|d l2]; simpl;
    try discriminate; [reflexivity|].
  intros H L. injection H as -> H. injection L as L. f_equal. now apply IH.
Qed.

(** At the head of a text the matcher finds the longest numeral. *)
Lemma match_at_longest_numeral s :
  match_at price_pattern s = longest_prefix is_numeral s.
Proof.
  unfold match_at. rewrite match_price_pattern.
  destruct (longest_prefix is_numeral s) as [l1|] eqn:E.
  - apply longest_prefix_some in E as ((r1 & Hs) & Hn & Hmax).
    destruct (price_rest_complete l1 r1 Hn) as (rest & Hr & Hlen).
    rewrite <- Hs in Hr. rewrite Hr.
    destruct (price_rest_sound s rest Hr) as (l & Hl & Hnl).
    pose proof (Hmax l rest Hl Hnl) as Hle.
    assert (L : List.length l = List.length l1).
    { apply (f_equal (@List.length ascii)) in Hs, Hl.
      rewrite length_app in Hs, Hl. lia. }
    assert (l = l1) by (apply (same_length_prefix l l1 rest r1); congruence).
    subst l. f_equal. rewrite Hl at 1 2. rewrite length_app.
    replace (List.length l1 + List.length rest - List.length rest)%nat
      with (List.length l1 + 0)%nat by lia.
    now rewrite firstn_app_2, firstn_O, app_nil_r.
  - destruct (price_rest s) as [rest|] eqn:Hr; [|reflexivity].
    destruct (price_rest_sound s rest Hr) as (l & Hl & Hnl).
    rewrite (longest_prefix_none _ _ E l rest Hl) in Hnl. discriminate.
Qed.

Lemma search_first_numeral i s :
  option_map group (search_from price_pattern i s) = first_numeral s.
Proof.
  revert i. induction s as [|c s IH]; intros i;
    cbn [search_from first_numeral option_map];
    rewrite match_at_longest_numeral;
    destruct (longest_prefix is_numeral _); try reflexivity.
  apply IH.
Qed.

(** ** [float()] on a numeral *)

Lemma filter_all (p : ascii -> bool) l : forallb p l = true -> filter p l = l.
Proof.
  induction l as [|c l IH]; simpl; [reflexivity|].
  intros H. apply andb_prop in H as [Hc Hl]. now rewrite Hc, IH.
Qed.

Lemma take_while_id p l : forallb p l = true -> take_while p l = l.
Proof.
  induction l as [|c l IH]; simpl; [reflexivity|].
  intros H. apply andb_prop in H as [Hc Hl]. now rewrite Hc, IH.
Qed.

Lemma drop_while_all p l : forallb p l = true -> drop_while p l = [].
Proof.
  induction l as [|c l IH]; simpl; [reflexivity|].
  intros H. apply andb_prop in H as [Hc Hl]. now rewrite Hc, IH.
Qed.

Lemma digits_not_dots l :
  forallb is_digit l = true -> forallb (fun c => negb (is_dot c)) l = true.
Proof.
  induction l as [|c l IH]; simpl; [reflexivity|].
  intros H. apply andb_prop in H as [Hc Hl].
  now rewrite (digit_not_dot _ Hc), IH.
Qed.

Lemma not_sign_not_minus c : is_sign c = false -> Ascii.eqb c "-" = false.
Proof. unfold is_sign. now destruct (Ascii.eqb c "-"). Qed.

Lemma float_numeral_shape l :
  is_float_numeral l = true ->
  exists ip c d fp,
    unsigned l = ip ++ c :: d :: fp /\ forallb is_digit ip = true /\
    is_dot c = true /\ is_digit d = true /\ forallb is_digit fp = true.
Proof.
  unfold is_float_numeral. intros H.
  destruct (drop_while is_digit (unsigned l)) as [|c fp] eqn:E; [discriminate|].
  apply andb_prop in H as [Hc Hfp].
  destruct fp as [|d fp]; [discriminate|]. simpl in Hfp.
  apply andb_prop in Hfp as [Hd Hfp].
  exists (take_while is_digit (unsigned l)), c, d, fp.
  rewrite <- E, take_drop_while. auto using take_while_all.
Qed.

(** [float()] and the reading of an unsigned numeral with a point. *)
Lemma py_float_body neg ip c d fp :
  forallb is_digit ip = true -> is_dot c = true ->
  is_digit d = true -> forallb is_digit fp = true ->
  let body := ip ++ c :: d :: fp in
  match drop_while is_digit body with
  | [] =>
      match take_while is_digit body with
      | [] => None
      | _ => Some (F64.of_decimal neg (digits_value (take_while is_digit body)) 0)
      end
  | c0 :: r =>
      if is_dot c0 && forallb is_digit r
         && negb (match take_while is_digit body ++ r with
                  | [] => true
                  | _ => false
                  end)
      then Some (F64.of_decimal neg
                   (digits_value (take_while is_digit body ++ r))
                   (List.length r))
      else None
  end
  = Some (F64.of_decimal neg (digits_value (filter is_digit body))
            (List.length (fraction_digits body))).
Proof.
  intros Hip Hc Hd Hfp body. subst body.
  pose proof (dot_not_digit _ Hc) as Hcd.
  rewrite drop_while_app, drop_while_stop, take_while_app by assumption.
  rewrite Hc. simpl forallb. rewrite Hd, Hfp. simpl andb.
  replace (match ip ++ d :: fp with [] => true | _ => false end) with false
    by now destruct ip.
  simpl negb. cbv iota.
  rewrite filter_app. simpl filter. rewrite Hcd, Hd.
  rewrite !filter_all by assumption.
  unfold fraction_digits.
  rewrite drop_while_app by now apply digits_not_dots.
  rewrite drop_while_stop by now rewrite Hc.
  reflexivity.
Qed.

Lemma py_float_numeral l :
  is_numeral l = true -> py_float l = Some (numeral_value l).
Proof.
  unfold is_numeral. intros H. destruct (is_float_numeral l) eqn:F.
  - clear H. apply float_numeral_shape in F as (ip & c & d & fp & U & Hs).
    destruct Hs as (Hip & Hc & Hd & Hfp).
    unfold py_float, numeral_value. destruct l as [|c0 r].
    + destruct ip; discriminate.
    + simpl in U. destruct (is_sign c0) eqn:S0.
      * subst r. rewrite py_float_body by assumption.
        simpl filter. rewrite (sign_not_digit _ S0).
        unfold fraction_digits at 2. simpl drop_while.
        rewrite (sign_not_dot _ S0). reflexivity.
      * rewrite U, py_float_body by assumption.
        rewrite (not_sign_not_minus _ S0). reflexivity.
  - simpl in H. apply integer_numeral_digits in H as [Hne Hd].
    unfold py_float, numeral_value. destruct l as [|c0 r]; [congruence|].
    pose proof Hd as Hd'. simpl in Hd'. apply andb_prop in Hd' as [H0 _].
    rewrite (digit_not_sign _ H0).
    rewrite drop_while_all, take_while_id, filter_all by assumption.
    rewrite (not_sign_not_minus _ (digit_not_sign _ H0)).
    unfold fraction_digits.
    rewrite drop_while_all by now apply digits_not_dots. reflexivity.
Qed.

Lemma first_numeral_is_numeral s l :
  first_numeral s = Some l -> is_numeral l = true.
Proof.
  induction s as [|c s IH]; cbn [first_numeral];
    destruct (longest_prefix is_numeral _) as [l0|] eqn:E;
    try discriminate; try (intros H; injection H as <-;
                            now apply longest_prefix_some in E).
  exact IH.
Qed.

(** ** Stripping the currency marks *)

Lemma replace_empty old s :
  replace old [] s = filter (fun c => negb (Ascii.eqb c old)) s.
Proof.
  unfold replace. induction s as [|c s IH]; simpl; [reflexivity|].
  rewrite IH. now destruct (Ascii.eqb c old).
Qed.

Lemma strip_currency_eq s :
  replace "," [] (replace "$" [] s) = strip_currency s.
Proof.
  rewrite !replace_empty. unfold strip_currency.
  induction s as [|c s IH]; simpl; [reflexivity|].
  destruct (Ascii.eqb c "$") eqn:D; simpl.
  - exact IH.
  - destruct (Ascii.eqb c ","); simpl; now rewrite IH.
Qed.

Lemma get_price_refines s : get_price s = Some (get_price_spec s).
Proof.
  unfold get_price, get_price_spec, re_search. rewrite strip_currency_eq.
  pose proof (search_first_numeral 0 (strip_currency (chars s))) as H.
  destruct (search_from price_pattern 0 (strip_currency (chars s))) as [m|];
    simpl in H; rewrite <- H; [|reflexivity].
  apply py_float_numeral. symmetry in H.
  now apply first_numeral_is_numeral in H.
Qed.

(** ** The value of a numeral is a number *)

Lemma iter_pos_invariant (A : Type) (P : A -> Prop) (f : A -> A) :
  (forall x, P x -> P (f x)) -> forall p x, P x -> P (iter_pos f p x).
Proof.
  intros Hf. induction p as [p IH | p IH |]; intros x Hx; simpl; auto.
Qed.

Lemma shr_1_nonneg mrs : (0 <= shr_m mrs)%Z -> (0 <= shr_m (shr_1 mrs))%Z.
Proof.
  destruct mrs as [m r s]. simpl.
  destruct m as [|[p|p|]|[p|p|]]; simpl; lia.
Qed.

Lemma shr_fexp_nonneg m e l :
  (0 <= m)%Z -> (0 <= shr_m (fst (shr_fexp prec emax m e l)))%Z.
Proof.
  intros Hm. unfold shr_fexp, shr.
  assert (H0 : (0 <= shr_m (shr_record_of_loc m l))%Z)
    by (destruct l as [|[]]; exact Hm).
  destruct (fexp prec emax (Zdigits2 m + e) - e)%Z; simpl; try assumption.
  now apply iter_pos_invariant; [apply shr_1_nonneg|].
Qed.

Lemma round_nearest_even_nonneg m l :
  (0 <= m)%Z -> (0 <= round_nearest_even m l)%Z.
Proof.
  intros Hm. destruct l as [|[]]; simpl; try lia.
  destruct (Z.even m); lia.
Qed.

Lemma binary_round_aux_is_number sx mx ex lx :
  (0 <= mx)%Z ->
  F64.is_nan (binary_round_aux prec emax sx mx ex lx) = false.
Proof.
  intros Hm. unfold binary_round_aux.
  pose proof (shr_fexp_nonneg mx ex lx Hm) as H1.
  destruct (shr_fexp prec emax mx ex lx) as [mrs' e']. simpl in H1.
  pose proof (shr_fexp_nonneg _ e' loc_Exact
                (round_nearest_even_nonneg _ (loc_of_shr_record mrs') H1)) as H2.
  destruct (shr_fexp prec emax
              (round_nearest_even (shr_m mrs') (loc_of_shr_record mrs'))
              e' loc_Exact) as [mrs'' e'']. simpl in H2.
  destruct (shr_m mrs'') as [|p|p]; try reflexivity; [|lia].
  now destruct (e'' <=? emax - prec)%Z.
Qed.

Lemma div_finite_is_number sx mx ex sy my ey :
  F64.is_nan (F64.div (S754_finite sx mx ex) (S754_finite sy my ey)) = false.
Proof.
  unfold F64.div, SFdiv, SFdiv_core_binary.
  set (m' := match (ex - ey - _)%Z with
             | Zpos _ => _
             | Z0 => _
             | Zneg _ => _
             end).
  assert (Hm : (0 <= m')%Z).
  { subst m'. destruct (ex - ey - _)%Z; try lia.
    apply Z.shiftl_nonneg. lia. }
  pose proof (Z.div_pos m' (Zpos my) Hm ltac:(lia)) as Hq.
  unfold Z.div in Hq.
  destruct (Z.div_eucl m' (Zpos my)) as [q r]. simpl in Hq.
  now apply binary_round_aux_is_number.
Qed.

Lemma of_decimal_is_number neg m k : F64.is_nan (F64.of_decimal neg m k) = false.
Proof.
  unfold F64.of_decimal. destruct m as [|p|p]; try reflexivity.
  pose proof (Z.pow_pos_nonneg 10 (Z.of_nat k) ltac:(lia) ltac:(lia)) as H.
  destruct (10 ^ Z.of_nat k)%Z as [|q|q]; try lia.
  apply div_finite_is_number.
Qed.

Lemma get_price_spec_is_number s : F64.is_nan (get_price_spec s) = false.
Proof.
  unfold get_price_spec. destruct (first_numeral _); [|reflexivity].
  apply of_decimal_is_number.
Qed.

(** ** A text without digits has no numeral *)

Lemma integer_numeral_has_digit l :
  is_integer_numeral l = true -> existsb is_digit l = true.
Proof.
  destruct l as [|c l]; [discriminate|]. simpl. intros H.
  apply andb_prop in H as [-> _]. reflexivity.
Qed.

Lemma numeral_has_digit l : is_numeral l = true -> existsb is_digit l = true.
Proof.
  unfold is_numeral. intros H. apply orb_prop in H as [H|H];
    [|now apply integer_numeral_has_digit].
  apply float_numeral_shape in H as (ip & c & d & fp & U & _ & _ & Hd & _).
  assert (Hu : existsb is_digit (unsigned l) = true).
  { rewrite U, existsb_app. simpl. rewrite Hd. simpl.
    now rewrite !orb_true_r. }
  destruct l as [|c0 r]; [discriminate|]. simpl in *.
  destruct (is_sign c0); [now rewrite Hu, orb_true_r | exact Hu].
Qed.

Lemma longest_prefix_digit s l :
  longest_prefix is_numeral s = Some l -> existsb is_digit s = true.
Proof.
  intros H. apply longest_prefix_some in H as ((r & ->) & Hn & _).
  rewrite existsb_app, (numeral_has_digit _ Hn). reflexivity.
Qed.

Lemma no_digit_no_numeral s :
  existsb is_digit s = false -> first_numeral s = None.
Proof.
  induction s as [|c s IH]; intros H; cbn [first_numeral];
    destruct (longest_prefix is_numeral _) as [l|] eqn:E;
    try (apply longest_prefix_digit in E; congruence); [reflexivity|].
  apply IH. simpl in H. now apply orb_false_elim in H as [_ H].
Qed.

Lemma strip_currency_no_digit s :
  existsb is_digit s = false -> existsb is_digit (strip_currency s) = false.
Proof.
  unfold strip_currency. induction s as [|c s IH]; simpl; [reflexivity|].
  intros H. apply orb_false_elim in H as [Hc Hs].
  destruct (negb _); simpl; [now rewrite Hc, IH | now apply IH].
Qed.

Lemma get_price_spec_no_digit s :
  existsb is_digit (chars s) = false -> get_price_spec s = F64.zero.
Proof.
  intros H. unfold get_price_spec.
  now rewrite (no_digit_no_numeral _ (strip_currency_no_digit _ H)).
Qed.

(* ================================================================= *)
(** ** Computations and the relations they keep *)

Section Frames.

Context {World : Type}.

Local Abbreviation St := (State World).

(** [m] leaves a state related by [R] to the one it starts from, whether
    it returns or raises. *)
Definition keeps {A : Type} (R : St -> St -> Prop) (m : M A) : Prop :=
  forall st, R st (snd (m st)).

(** A relation every step outside the notify handler respects: a
    preorder that log lines and calls to the other collaborators keep. *)
Record frame (R : St -> St -> Prop) : Prop :=
  { frame_refl : forall st, R st st;
    frame_trans : forall a b c, R a b -> R b c -> R a c;
    frame_log : forall msg, keeps R (log msg);
    frame_call :
      forall (A : Type) sv (f : World -> outcome A * World),
        (forall b, is_notify {| target := sv; failed := b |} = false) ->
        keeps R (call_service sv f) }.

Arguments frame_refl {R} _ st.
Arguments frame_trans {R} _ a b c _ _.
Arguments frame_log {R} _ msg st.
Arguments frame_call {R} _ A sv f _ st.

Variable R : St -> St -> Prop.
Hypothesis HR : frame R.

Lemma keeps_ret (A : Type) (a : A) : keeps R (ret a).
Proof. intros st. apply (frame_refl HR). Qed.

Lemma keeps_raise (A : Type) e : keeps R (@raise World A e).
Proof. intros st. apply (frame_refl HR). Qed.

Lemma keeps_bind (A B : Type) (m : M A) (f : A -> M B) :
  keeps R m -> (forall a, keeps R (f a)) -> keeps R (bind m f).
Proof.
  intros Hm Hf st. unfold bind. specialize (Hm st).
  destruct (m st) as [[a|e] st1]; simpl in *; [|assumption].
  apply (frame_trans HR _ _ _ Hm). apply Hf.
Qed.

Lemma keeps_get_memory : keeps R get_memory.
Proof. intros st. apply (frame_refl HR). Qed.

Lemma keeps_get_opportunity : keeps R get_opportunity.
Proof. intros st. apply (frame_refl HR). Qed.

Variable E : Services World.

Lemma keeps_get_price_m reply : keeps R (get_price_m (World := World) reply).
Proof.
  unfold get_price_m. destruct (get_price reply);
    [apply keeps_ret | apply keeps_raise].
Qed.

Ltac frame_step :=
  first [ apply keeps_bind; [|intros]
        | apply keeps_ret
        | apply (frame_log HR)
        | apply (frame_call HR); reflexivity
        | apply keeps_get_memory
        | apply keeps_get_price_m ].

Lemma keeps_find_similars description : keeps R (find_similars E description).
Proof. unfold find_similars, preprocess. repeat frame_step. Qed.

Lemma keeps_frontier_price description :
  keeps R (frontier_price E description).
Proof.
  unfold frontier_price.
  apply keeps_bind; [apply keeps_find_similars | intros].
  repeat frame_step.
Qed.

Lemma keeps_scan : keeps R (scan_the_internet_for_bargains E).
Proof. unfold scan_the_internet_for_bargains. repeat frame_step. Qed.

Lemma keeps_estimate description : keeps R (estimate_true_value E description).
Proof.
  unfold estimate_true_value.
  apply keeps_bind; [apply (frame_log HR) | intros].
  apply keeps_bind; [apply keeps_frontier_price | intros].
  repeat frame_step.
Qed.

(** With the notify handler and the record of invocations keeping [R]
    too, a whole run keeps it, whatever the tools do with a handler's
    exception. *)
Hypothesis HR_record : forall c, keeps R (record_invocation c).
Hypothesis HR_notify :
  forall description deal_price estimated_true_value url,
    keeps R (notify_user_of_deal E description deal_price
               estimated_true_value url).

Lemma keeps_handler c : keeps R (handler E c).
Proof.
  destruct c; simpl;
    [apply keeps_scan | apply keeps_estimate | apply HR_notify].
Qed.

Lemma keeps_function_tool policy (f : M string) :
  keeps R f -> keeps R (function_tool policy f).
Proof.
  intros Hf st. unfold function_tool. specialize (Hf st).
  destruct (f st) as [[v|e] st1]; simpl in *; [assumption|].
  now destruct policy.
Qed.

Lemma keeps_Runner_run policy d : keeps R (Runner_run E policy d).
Proof.
  induction d as [out | c next IH | e]; simpl.
  - apply keeps_ret.
  - apply keeps_bind; [apply HR_record | intros _].
    apply keeps_bind; [|intros out; apply IH].
    apply keeps_function_tool, keeps_handler.
  - apply keeps_raise.
Qed.

End Frames.

(* ================================================================= *)
(** ** What the handlers and a run keep *)

Section Runs.

Context {World : Type}.
Variable E : Services World.

Local Abbreviation St := (State World).

(** A log line. *)
Ltac step_log := intros msg st; simpl.

(** A call to a collaborator, whatever it answers. *)
Ltac step_call :=
  intros A sv f Hsv st; unfold call_service;
  destruct (f (world st)) as [r w]; simpl.

(** *** The slot is left as it was *)

Definition same_slot (st st' : St) : Prop :=
  opportunity st' = opportunity st.

Lemma same_slot_frame : frame same_slot.
Proof.
  split; unfold same_slot.
  - reflexivity.
  - intros a b c H1 H2. now rewrite H2.
  - step_log. reflexivity.
  - step_call. reflexivity.
Qed.

(** *** The record of invocations is left as it was *)

Definition same_invocations (st st' : St) : Prop :=
  invocations st' = invocations st.

Lemma same_invocations_frame : frame same_invocations.
Proof.
  split; unfold same_invocations.
  - reflexivity.
  - intros a b c H1 H2. now rewrite H2.
  - step_log. reflexivity.
  - step_call. reflexivity.
Qed.

(** *** The notify handler, case by case *)

Definition captured (description : string) (deal_price : float)
  (estimated_true_value : float) (url : string) : Opportunity :=
  {| deal := {| product_description := description; price := deal_price;
                url := url |};
     estimate := estimated_true_value;
     discount := F64.sub estimated_true_value deal_price |}.

(** A slot that is taken: nothing but a log line. *)
Lemma notify_when_captured description deal_price estimated_true_value url
  (st : St) o :
  opportunity st = Some o ->
  notify_user_of_deal E description deal_price estimated_true_value url st
  = (Returned "notification sent"%string,
     snd (log "Autonomous Planning agent is trying to notify the user a 2nd time; ignoring" st)).
Proof.
  intros H. unfold notify_user_of_deal, bind, get_opportunity.
  rewrite H. reflexivity.
Qed.

(** An empty slot and a transport that returns: the slot is filled. *)
Lemma notify_when_sent description deal_price estimated_true_value url
  (st : St) w :
  opportunity st = None ->
  notify E description deal_price estimated_true_value url (world st)
  = (Returned tt, w) ->
  notify_user_of_deal E description deal_price estimated_true_value url st
  = (Returned "notification sent"%string,
     {| memory := memory st;
        opportunity :=
          Some (captured description deal_price estimated_true_value url);
        world := w;
        journal := journal st ++ ["Autonomous Planning agent is notifying user"%string];
        calls := calls st ++
                   [{| target := Notify description deal_price
                                   estimated_true_value url;
                       failed := false |}];
        invocations := invocations st |}).
Proof.
  intros H Hn.
  unfold notify_user_of_deal, bind, get_opportunity, call_service, log.
  rewrite H. simpl. rewrite Hn. reflexivity.
Qed.

(** An empty slot and a transport that raises: the exception leaves the
    handler, the slot stays empty. *)
Lemma notify_when_transport_raises description deal_price
  estimated_true_value url (st : St) e w :
  opportunity st = None ->
  notify E description deal_price estimated_true_value url (world st)
  = (Raised e, w) ->
  notify_user_of_deal E description deal_price estimated_true_value url st
  = (Raised e,
     {| memory := memory st;
        opportunity := None;
        world := w;
        journal := journal st ++ ["Autonomous Planning agent is notifying user"%string];
        calls := calls st ++
                   [{| target := Notify description deal_price
                                   estimated_true_value url;
                       failed := true |}];
        invocations := invocations st |}).
Proof.
  intros H Hn.
  unfold notify_user_of_deal, bind, get_opportunity, call_service, log.
  rewrite H. simpl. rewrite Hn. simpl. now rewrite H.
Qed.

(** The three cases are all there is. *)
Variant notify_case description deal_price estimated_true_value url
  (st : St) : Prop :=
| case_captured o (_ : opportunity st = Some o)
| case_sent w
    (_ : opportunity st = None)
    (_ : notify E description deal_price estimated_true_value url (world st)
         = (Returned tt, w))
| case_raised e w
    (_ : opportunity st = None)
    (_ : notify E description deal_price estimated_true_value url (world st)
         = (Raised e, w)).

Lemma notify_cases description deal_price estimated_true_value url (st : St) :
  notify_case description deal_price estimated_true_value url st.
Proof.
  destruct (opportunity st) as [o|] eqn:H; [now apply (case_captured _ _ _ _ _ o)|].
  destruct (notify E description deal_price estimated_true_value url (world st))
    as [[[]|e] w] eqn:Hn.
  - now apply (case_sent _ _ _ _ _ w).
  - now apply (case_raised _ _ _ _ _ e w).
Qed.

Ltac notify_by_cases description deal_price estimated_true_value url st :=
  destruct (notify_cases description deal_price estimated_true_value url st)
    as [o Ho | w Ho Hn | e w Ho Hn];
  [ rewrite (notify_when_captured _ _ _ _ _ _ Ho)
  | rewrite (notify_when_sent _ _ _ _ _ _ Ho Hn)
  | rewrite (notify_when_transport_raises _ _ _ _ _ _ _ Ho Hn) ];
  simpl.

Lemma notify_same_invocations description deal_price estimated_true_value url :
  keeps same_invocations
    (notify_user_of_deal E description deal_price estimated_true_value url).
Proof.
  intros st. unfold same_invocations.
  notify_by_cases description deal_price estimated_true_value url st;
    reflexivity.
Qed.

Lemma handler_same_invocations c : keeps same_invocations (handler E c).
Proof.
  destruct c; simpl.
  - apply keeps_scan, same_invocations_frame.
  - apply keeps_estimate, same_invocations_frame.
  - apply notify_same_invocations.
Qed.

(** *** The slot holds a consistent Opportunity *)

Definition consistent (o : Opportunity) : Prop :=
  discount o = F64.sub (estimate o) (price (deal o)).

Definition slot_consistent (st : St) : Prop :=
  forall o, opportunity st = Some o -> consistent o.

Definition stays_consistent (st st' : St) : Prop :=
  slot_consistent st -> slot_consistent st'.

Lemma stays_consistent_frame : frame stays_consistent.
Proof.
  split; unfold stays_consistent, slot_consistent.
  - auto.
  - auto.
  - step_log. auto.
  - step_call. auto.
Qed.

Lemma stays_consistent_record c : keeps stays_consistent (record_invocation c).
Proof. intros st. unfold stays_consistent, slot_consistent. simpl. auto. Qed.

Lemma stays_consistent_notify description deal_price estimated_true_value url :
  keeps stays_consistent
    (notify_user_of_deal E description deal_price estimated_true_value url).
Proof.
  intros st. unfold stays_consistent, slot_consistent.
  notify_by_cases description deal_price estimated_true_value url st; auto.
  - intros _ o' H. injection H as <-. reflexivity.
  - discriminate.
Qed.

Lemma run_stays_consistent policy d :
  keeps stays_consistent (Runner_run E policy d).
Proof.
  apply keeps_Runner_run.
  - apply stays_consistent_frame.
  - apply stays_consistent_record.
  - apply stays_consistent_notify.
Qed.

(** *** A captured Opportunity stays, and the transport is not called *)

Definition no_notify (l : list call) : Prop :=
  forallb (fun c => negb (is_notify c)) l = true.

Definition stays_captured (st st' : St) : Prop :=
  forall o, opportunity st = Some o ->
            opportunity st' = Some o /\
            exists l, calls st' = calls st ++ l /\ no_notify l.

Lemma stays_captured_frame : frame stays_captured.
Proof.
  split; unfold stays_captured, no_notify.
  - intros st o H. split; [assumption|]. exists []. now rewrite app_nil_r.
  - intros a b c H1 H2 o Ho.
    destruct (H1 o Ho) as (Hb & l1 & E1 & N1).
    destruct (H2 o Hb) as (Hc & l2 & E2 & N2).
    split; [assumption|]. exists (l1 ++ l2).
    now rewrite E2, E1, app_assoc, forallb_app, N1, N2.
  - step_log. intros o H. split; [assumption|]. exists [].
    now rewrite app_nil_r.
  - step_call. intros o H. split; [assumption|]. eexists. split; [reflexivity|].
    simpl. now rewrite Hsv.
Qed.

Lemma stays_captured_record c : keeps stays_captured (record_invocation c).
Proof.
  intros st o H. simpl. split; [assumption|]. exists [].
  now rewrite app_nil_r.
Qed.

Lemma stays_captured_notify description deal_price estimated_true_value url :
  keeps stays_captured
    (notify_user_of_deal E description deal_price estimated_true_value url).
Proof.
  intros st o H.
  rewrite (notify_when_captured _ _ _ _ _ _ H). simpl.
  split; [assumption|]. exists []. now rewrite app_nil_r.
Qed.

Lemma run_stays_captured policy d :
  keeps stays_captured (Runner_run E policy d).
Proof.
  apply keeps_Runner_run.
  - apply stays_captured_frame.
  - apply stays_captured_record.
  - apply stays_captured_notify.
Qed.

(** *** The slot changes only when a transport call returns *)

(** A call to the notification transport that returned. *)
Definition sent (c : call) : bool := is_notify c && negb (failed c).

Definition filled_by_sending (st st' : St) : Prop :=
  exists l, calls st' = calls st ++ l /\
            (opportunity st' = opportunity st \/ existsb sent l = true).

Lemma filled_by_sending_frame : frame filled_by_sending.
Proof.
  split; unfold filled_by_sending.
  - intros st. exists []. rewrite app_nil_r. auto.
  - intros a b c (l1 & E1 & H1) (l2 & E2 & H2).
    exists (l1 ++ l2). rewrite E2, E1, app_assoc, existsb_app.
    split; [reflexivity|].
    destruct H2 as [H2|H2]; [|right; rewrite H2; apply orb_true_r].
    destruct H1 as [H1|H1]; [left; congruence|right; now rewrite H1].
  - step_log. exists []. rewrite app_nil_r. auto.
  - step_call. eexists. split; [reflexivity|]. now left.
Qed.

Lemma filled_by_sending_record c :
  keeps filled_by_sending (record_invocation c).
Proof. intros st. exists []. simpl. rewrite app_nil_r. auto. Qed.

Lemma filled_by_sending_notify description deal_price estimated_true_value url :
  keeps filled_by_sending
    (notify_user_of_deal E description deal_price estimated_true_value url).
Proof.
  intros st. unfold filled_by_sending.
  notify_by_cases description deal_price estimated_true_value url st.
  - exists []. rewrite app_nil_r. auto.
  - eexists. split; [reflexivity|]. now right.
  - eexists. split; [reflexivity|]. left. now rewrite Ho.
Qed.

Lemma run_filled_by_sending policy d :
  keeps filled_by_sending (Runner_run E policy d).
Proof.
  apply keeps_Runner_run.
  - apply filled_by_sending_frame.
  - apply filled_by_sending_record.
  - apply filled_by_sending_notify.
Qed.

(** *** The invocations of a run *)

Lemma function_tool_state policy (f : M string) (st : St) :
  snd (function_tool policy f st) = snd (f st).
Proof.
  unfold function_tool. destruct (f st) as [[v|e] st1]; [reflexivity|].
  now destruct policy.
Qed.

Lemma Runner_run_invoke policy c next (st : St) :
  Runner_run E policy (Invoke c next) st =
  match function_tool policy (handler E c) (snd (record_invocation c st)) with
  | (Returned out, st2) => Runner_run E policy (next out) st2
  | (Raised e, st2) => (Raised e, st2)
  end.
Proof. reflexivity. Qed.

Definition without_notify (l : list (tool_call * option Opportunity)) : Prop :=
  forallb (fun i => negb (is_notify_call (fst i))) l = true.

(** In a run, every invocation up to the first notify, that one included,
    finds the slot as the run found it; and a run that never invokes
    notify leaves the slot as it was. *)
Lemma run_invocations policy d (st : St) :
  exists l,
    invocations (snd (Runner_run E policy d st)) = invocations st ++ l /\
    (forall l1 c slot l2,
        l = l1 ++ (c, slot) :: l2 -> without_notify l1 ->
        slot = opportunity st) /\
    (without_notify l ->
     opportunity (snd (Runner_run E policy d st)) = opportunity st).
Proof.
  revert st. induction d as [out | c next IH | e]; intros st.
  - exists []. simpl. rewrite app_nil_r. repeat split; auto.
    intros [|i l1] c slot l2 H; discriminate.
  - rewrite Runner_run_invoke.
    set (st1 := snd (record_invocation c st)).
    assert (I1 : invocations st1 = invocations st ++ [(c, opportunity st)])
      by reflexivity.
    assert (O1 : opportunity st1 = opportunity st) by reflexivity.
    clearbody st1.
    pose proof (function_tool_state policy (handler E c) st1) as Hs.
    pose proof (handler_same_invocations c st1) as Hi.
    unfold same_invocations in Hi.
    assert (Hslot : is_notify_call c = false ->
                    opportunity (snd (handler E c st1)) = opportunity st).
    { rewrite <- O1.
      destruct c as [|d0|d0 p0 e0 u0]; intros Hc; try discriminate.
      - apply (keeps_scan same_slot same_slot_frame E st1).
      - apply (keeps_estimate same_slot same_slot_frame E d0 st1). }
    assert (Hhead : forall i l1,
               without_notify (i :: l1) -> fst i = c ->
               is_notify_call c = false /\ without_notify l1).
    { unfold without_notify. simpl. intros i l1 H <-.
      apply andb_prop in H as [Hc H]. split; [|assumption].
      now destruct (is_notify_call (fst i)). }
    destruct (function_tool policy (handler E c) st1) as [[out|e] st2];
      simpl in Hs; subst st2.
    + destruct (IH out (snd (handler E c st1))) as (l & Hl & Hf & Hn).
      exists ((c, opportunity st) :: l). rewrite Hl, Hi, I1.
      rewrite <- app_assoc. split; [reflexivity|]. split.
      * intros [|i l1] c' slot l2 H W; simpl in H.
        -- now injection H as _ <- _.
        -- injection H as <- H.
           destruct (Hhead _ _ W eq_refl) as [Hc W1].
           rewrite (Hf _ _ _ _ H W1). now apply Hslot.
      * intros W. destruct (Hhead _ _ W eq_refl) as [Hc W1].
        rewrite (Hn W1). now apply Hslot.
    + exists [(c, opportunity st)]. simpl. rewrite Hi, I1.
      split; [reflexivity|]. split.
      * intros [|i [|i' l1]] c' slot l2 H W; simpl in H; try discriminate.
        now injection H as _ <-.
      * intros W. destruct (Hhead _ _ W eq_refl) as [Hc _].
        now apply Hslot.
  - exists []. simpl. rewrite app_nil_r. repeat split; auto.
    intros [|i l1] c slot l2 H; discriminate.
Qed.

End Runs.

(* ================================================================= *)
(** ** Failures of collaborators are not caught by the handlers *)

Section Failures.

Context {World : Type}.
Variable E : Services World.

Local Abbreviation St := (State World).

Definition no_failure (l : list call) : Prop :=
  forallb (fun c => negb (failed c)) l = true.

(** [m] catches nothing: when it returns, no call it made had failed. *)
Definition uncaught {A : Type} (m : M A) : Prop :=
  forall st : St,
  exists l, calls (snd (m st)) = calls st ++ l /\
            (is_raised (fst (m st)) = false -> no_failure l).

Lemma uncaught_silent (A : Type) (m : M A) :
  (forall st, calls (snd (m st)) = calls st) -> uncaught m.
Proof.
  intros H st. exists []. rewrite app_nil_r. split; [apply H | reflexivity].
Qed.

Lemma uncaught_bind (A B : Type) (m : M A) (f : A -> M B) :
  uncaught m -> (forall a, uncaught (f a)) -> uncaught (bind m f).
Proof.
  intros Hm Hf st. unfold bind. destruct (Hm st) as (l1 & E1 & N1).
  destruct (m st) as [[a|e] st1]; simpl in *.
  - destruct (Hf a st1) as (l2 & E2 & N2). exists (l1 ++ l2).
    rewrite E2, E1, app_assoc. split; [reflexivity|].
    intros H. unfold no_failure in *. rewrite forallb_app.
    now rewrite N1, N2.
  - exists l1. split; [assumption | discriminate].
Qed.

Lemma uncaught_call (A : Type) sv (f : World -> outcome A * World) :
  uncaught (call_service sv f).
Proof.
  intros st. unfold call_service. destruct (f (world st)) as [r w]. simpl.
  eexists. split; [reflexivity|]. intros H. unfold no_failure. simpl.
  now rewrite H.
Qed.

Ltac uncaught_step :=
  first [ apply uncaught_bind; [|intros]
        | apply uncaught_call
        | apply uncaught_silent; intros; reflexivity ].

Lemma uncaught_get_price_m reply : uncaught (get_price_m (World := World) reply).
Proof.
  unfold get_price_m. destruct (get_price reply); uncaught_step.
Qed.

Lemma uncaught_frontier_price description :
  uncaught (frontier_price E description).
Proof.
  unfold frontier_price, find_similars, preprocess.
  repeat first [ apply uncaught_get_price_m | uncaught_step ].
Qed.

Lemma uncaught_handler c : uncaught (handler E c).
Proof.
  destruct c as [|d|d p e u]; simpl.
  - unfold scan_the_internet_for_bargains. repeat uncaught_step.
  - unfold estimate_true_value.
    apply uncaught_bind; [uncaught_step | intros].
    apply uncaught_bind; [apply uncaught_frontier_price | intros].
    repeat uncaught_step.
  - unfold notify_user_of_deal.
    apply uncaught_bind; [uncaught_step | intros slot].
    destruct slot; repeat uncaught_step.
Qed.

(** Tools that raise the handler's exception again catch nothing either,
    and so does a whole run on such tools. *)
Lemma uncaught_run_reraising d : uncaught (Runner_run E None d).
Proof.
  induction d as [out | c next IH | e]; simpl.
  - uncaught_step.
  - apply uncaught_bind; [uncaught_step | intros _].
    apply uncaught_bind; [|intros out; apply IH].
    intros st. destruct (uncaught_handler c st) as (l & El & Nl).
    exists l. unfold function_tool.
    destruct (handler E c st) as [[v|e] st1]; simpl in *; auto.
  - uncaught_step.
Qed.

(** *** [plan], step by step *)

Definition plan_start (memory : list string) (st : St) : St :=
  {| memory := Some memory; opportunity := None; world := world st;
     journal := journal st ++ ["Autonomous Planning Agent is kicking off a run"%string];
     calls := calls st; invocations := invocations st |}.

Lemma plan_eq policy d memory (st : St) :
  plan E policy d memory st =
  match Runner_run E policy d (plan_start memory st) with
  | (Returned reply, st1) =>
      (Returned (opportunity st1),
       snd (log ("Autonomous Planning Agent completed with: " ++ reply) st1))
  | (Raised e, st1) => (Raised e, st1)
  end.
Proof.
  unfold plan, run_async_task, go, bind. simpl.
  fold (plan_start memory st).
  destruct (Runner_run E policy d (plan_start memory st)) as [[reply|e] st1];
    reflexivity.
Qed.

Lemma plan_state policy d memory (st : St) :
  opportunity (snd (plan E policy d memory st))
  = opportunity (snd (Runner_run E policy d (plan_start memory st))) /\
  calls (snd (plan E policy d memory st))
  = calls (snd (Runner_run E policy d (plan_start memory st))) /\
  invocations (snd (plan E policy d memory st))
  = invocations (snd (Runner_run E policy d (plan_start memory st))).
Proof.
  rewrite plan_eq.
  destruct (Runner_run E policy d (plan_start memory st)) as [[reply|e] st1];
    simpl; auto.
Qed.

Lemma plan_result policy d memory (st : St) v :
  fst (plan E policy d memory st) = Returned v ->
  v = opportunity (snd (plan E policy d memory st)).
Proof.
  rewrite plan_eq.
  destruct (Runner_run E policy d (plan_start memory st)) as [[reply|e] st1];
    simpl; congruence.
Qed.

End Failures.

(* ================================================================= *)
(** * The claims *)

Section Claims.

Context {World : Type}.
Variable E : Services World.

(** C1.  Whenever [plan] returns an Opportunity, its discount is its
    estimated true value minus the offered price of its deal, exactly:
    the same binary64 subtraction, on the same two numbers. *)
Theorem plan_discount_is_estimate_minus_price
  policy d memory (st : State World) o :
  fst (plan E policy d memory st) = Returned (Some o) ->
  discount o = F64.sub (estimate o) (price (deal o)).
Proof.
  intros H. apply plan_result in H.
  destruct (plan_state E policy d memory st) as (Ho & _ & _).
  rewrite Ho in H. symmetry in H. revert o H.
  apply (run_stays_consistent E policy d (plan_start memory st)).
  intros o H. discriminate.
Qed.

(** C2.  Once an Opportunity is captured, every notify invocation, with
    any arguments and through the tool wrapper, returns the text that the
    capturing invocation returned, calls no collaborator and leaves the
    state of the planner and of the world as they were; and whatever the
    decision process does from there, the Opportunity stays and the
    notification transport is not called again. *)
Theorem notify_after_capture_is_a_no_op policy (st : State World) o :
  opportunity st = Some o ->
  (forall description deal_price estimated_true_value url,
      let r := function_tool policy
                 (notify_user_of_deal E description deal_price
                    estimated_true_value url) st in
      fst r = Returned "notification sent"%string /\
      opportunity (snd r) = Some o /\ memory (snd r) = memory st /\
      calls (snd r) = calls st /\ world (snd r) = world st) /\
  (forall description deal_price estimated_true_value url (st0 : State World) v,
      fst (notify_user_of_deal E description deal_price
             estimated_true_value url st0) = Returned v ->
      v = "notification sent"%string) /\
  (forall d,
      let st' := snd (Runner_run E policy d st) in
      opportunity st' = Some o /\
      exists l, calls st' = calls st ++ l /\ no_notify l).
Proof.
  intros H. split; [|split].
  - intros description deal_price estimated_true_value url. cbv zeta.
    unfold function_tool. rewrite (notify_when_captured E _ _ _ _ _ _ H).
    simpl. auto.
  - intros description deal_price estimated_true_value url st0 v.
    destruct (notify_cases E description deal_price estimated_true_value url st0)
      as [o0 Ho | w Ho Hn | e w Ho Hn];
      [ rewrite (notify_when_captured E _ _ _ _ _ _ Ho)
      | rewrite (notify_when_sent E _ _ _ _ _ _ Ho Hn)
      | rewrite (notify_when_transport_raises E _ _ _ _ _ _ _ Ho Hn) ];
      simpl; congruence.
  - intros d. exact (run_stays_captured E policy d st o H).
Qed.

(** C3.  When the frontier agent prices the description at [e1] and the
    specialist at [e2], [estimate_true_value] returns the serialised
    record whose estimate is [(e1 + e2) / 2.0]; when both are 0.0 that
    estimate is 0.0. *)
Theorem estimate_true_value_is_the_mean description (st st1 : State World)
  e1 e2 w2 :
  frontier_price E description
    (snd (log "Autonomous Planning agent is estimating value" st))
  = (Returned e1, st1) ->
  specialist_price E description (world st1) = (Returned e2, w2) ->
  fst (estimate_true_value E description st)
  = Returned (json_dumps E
                {| description := description;
                   estimated_true_value :=
                     F64.div (F64.add e1 e2) F64.two |}) /\
  (e1 = F64.zero -> e2 = F64.zero ->
   fst (estimate_true_value E description st)
   = Returned (json_dumps E
                 {| description := description;
                    estimated_true_value := F64.zero |})).
Proof.
  intros H1 H2.
  assert (R : fst (estimate_true_value E description st)
              = Returned (json_dumps E
                            {| description := description;
                               estimated_true_value :=
                                 F64.div (F64.add e1 e2) F64.two |})).
  { unfold estimate_true_value, bind at 1.
    change (log "Autonomous Planning agent is estimating value" st)
      with (Returned tt,
            snd (log "Autonomous Planning agent is estimating value" st)).
    cbv iota beta. unfold bind at 1. rewrite H1.
    unfold bind, call_service. rewrite H2. reflexivity. }
  split; [exact R|]. intros -> ->. exact R.
Qed.

(** C5, as amended.  When the retrieval succeeds and the pricing model
    replies with the text [reply], [price] returns the value [get_price]
    reads from it: a number, never a failure; it is 0.0 when the reply
    holds no digit, so it need not be positive. *)
Theorem frontier_price_is_the_parsed_reply description (st st1 : State World)
  similars reply w2 :
  find_similars E description st = (Returned similars, st1) ->
  completion E (MODEL E)
    (messages_for E description (fst similars) (snd similars)) (Some 8)
    (world st1) = (Returned reply, w2) ->
  fst (frontier_price E description st) = Returned (get_price_spec reply) /\
  F64.is_nan (get_price_spec reply) = false /\
  (existsb is_digit (chars reply) = false ->
   get_price_spec reply = F64.zero).
Proof.
  intros H1 H2. split; [|split].
  - unfold frontier_price, bind at 1. rewrite H1.
    unfold bind at 1.
    change (log ("Frontier Agent is calling " ++ MODEL E ++
                   " with 5 similar products") st1)
      with (Returned tt,
            snd (log ("Frontier Agent is calling " ++ MODEL E ++
                        " with 5 similar products") st1)).
    cbv iota beta. unfold bind at 1, call_service.
    change (world (snd (log ("Frontier Agent is calling " ++ MODEL E ++
                               " with 5 similar products") st1)))
      with (world st1).
    rewrite H2. cbv iota beta.
    unfold bind at 1, get_price_m. rewrite get_price_refines.
    reflexivity.
  - apply get_price_spec_is_number.
  - apply get_price_spec_no_digit.
Qed.

(** C6.  Every call to [plan] empties the Opportunity slot before the
    run's first capability invocation: in the run, every invocation up to
    the first notify, that one included, finds the slot none, whatever the
    slot held when [plan] was called; and the whole run, result and final
    state, is the same whatever the slot held before. *)
Theorem plan_resets_the_opportunity policy d memory (st : State World) :
  (exists l,
      invocations (snd (plan E policy d memory st)) = invocations st ++ l /\
      forall l1 c slot l2,
        l = l1 ++ (c, slot) :: l2 -> without_notify l1 -> slot = None) /\
  (forall previous,
      plan E policy d memory (snd (set_opportunity previous st))
      = plan E policy d memory st).
Proof.
  split.
  - destruct (plan_state E policy d memory st) as (_ & _ & Hi).
    destruct (run_invocations E policy d (plan_start memory st))
      as (l & Hl & Hf & _).
    exists l. rewrite Hi, Hl. split; [reflexivity|exact Hf].
  - intros previous. rewrite !plan_eq. reflexivity.
Qed.

(** C7, as amended.  No handler catches a collaborator's failure: a
    handler in which a call to a collaborator fails raises, and leaves the
    Opportunity slot as it found it.  [plan] catches nothing: what the
    runner raises comes out of [plan].  With tools that raise the
    handler's exception again, a run in which a call to a collaborator
    fails ends in a raised error.  And at the end of any run the slot is
    none unless a call to the notification transport returned during the
    run. *)
Theorem collaborator_failure_is_not_caught :
  (forall c (st : State World),
      exists l,
        calls (snd (handler E c st)) = calls st ++ l /\
        (existsb failed l = true ->
         exists e, fst (handler E c st) = Raised e) /\
        (forall e, fst (handler E c st) = Raised e ->
                   opportunity (snd (handler E c st)) = opportunity st)) /\
  (forall policy d memory (st : State World) e,
      fst (Runner_run E policy d (plan_start memory st)) = Raised e ->
      fst (plan E policy d memory st) = Raised e) /\
  (forall d memory (st : State World),
      exists l,
        calls (snd (plan E None d memory st)) = calls st ++ l /\
        (existsb failed l = true ->
         exists e, fst (plan E None d memory st) = Raised e)) /\
  (forall policy d memory (st : State World),
      exists l,
        calls (snd (plan E policy d memory st)) = calls st ++ l /\
        (opportunity (snd (plan E policy d memory st)) = None \/
         existsb sent l = true)).
Proof.
  assert (F : forall l, no_failure l -> existsb failed l = true -> False).
  { unfold no_failure. induction l as [|c l IH]; simpl; [discriminate|].
    intros H1 H2. apply andb_prop in H1 as [Hc Hl].
    destruct (failed c); [discriminate|]. now apply IH. }
  assert (G : forall A (r : outcome A),
             (is_raised r = false -> False) -> exists e, r = Raised e).
  { intros A [a|e] H; [now destruct H | now exists e]. }
  split; [|split; [|split]].
  - intros c st. destruct (uncaught_handler E c st) as (l & Hl & Hn).
    exists l. split; [assumption|]. split.
    + intros Hf. apply G. intros Hr. exact (F l (Hn Hr) Hf).
    + intros e He. destruct c as [|d0|d0 p0 e0 u0]; simpl in *.
      * apply (keeps_scan same_slot same_slot_frame E st).
      * apply (keeps_estimate same_slot same_slot_frame E d0 st).
      * destruct (notify_cases E d0 p0 e0 u0 st)
          as [o Ho | w Ho Hw | e' w Ho Hw].
        -- rewrite (notify_when_captured E _ _ _ _ _ _ Ho) in He.
           discriminate.
        -- rewrite (notify_when_sent E _ _ _ _ _ _ Ho Hw) in He.
           discriminate.
        -- rewrite (notify_when_transport_raises E _ _ _ _ _ _ _ Ho Hw).
           simpl. now rewrite Ho.
  - intros policy d memory st e. rewrite plan_eq.
    destruct (Runner_run E policy d (plan_start memory st)) as [[v|e'] st1];
      simpl; [discriminate | now intros [= ->]].
  - intros d memory st.
    destruct (plan_state E None d memory st) as (_ & Hc & _).
    destruct (uncaught_run_reraising E d (plan_start memory st))
      as (l & Hl & Hn).
    exists l. rewrite Hc. split; [exact Hl|].
    intros Hf. apply G. intros Hr. apply (F l); [|exact Hf].
    apply Hn. rewrite plan_eq in Hr.
    destruct (Runner_run E None d (plan_start memory st)) as [[v|e'] st1];
      simpl in *; congruence.
  - intros policy d memory st.
    destruct (plan_state E policy d memory st) as (Ho & Hc & _).
    destruct (run_filled_by_sending E policy d (plan_start memory st))
      as (l & Hl & Hs).
    exists l. rewrite Hc, Ho. split; [exact Hl|exact Hs].
Qed.

(** C8.  When the scanner yields nothing, the scan capability returns the
    empty text and does not raise; and a run in which notify is never
    invoked leaves the Opportunity slot none, so that [plan], when it
    returns, returns none. *)
Theorem scanner_yields_nothing policy :
  (forall (st : State World) w,
      scan E (memory st) (world st) = (Returned None, w) ->
      fst (scan_the_internet_for_bargains E st) = Returned EmptyString /\
      fst (function_tool policy (scan_the_internet_for_bargains E) st)
      = Returned EmptyString) /\
  (forall d memory (st : State World),
      exists l,
        invocations (snd (plan E policy d memory st)) = invocations st ++ l /\
        (without_notify l ->
         opportunity (snd (plan E policy d memory st)) = None /\
         forall v, fst (plan E policy d memory st) = Returned v -> v = None)).
Proof.
  split.
  - intros st w H.
    assert (R : scan_the_internet_for_bargains E st
                = (Returned EmptyString,
                   snd (scan_the_internet_for_bargains E st))).
    { unfold scan_the_internet_for_bargains, bind, log, get_memory,
        call_service. simpl. rewrite H. reflexivity. }
    split; [now rewrite R|]. unfold function_tool. now rewrite R.
  - intros d memory st.
    destruct (plan_state E policy d memory st) as (Ho & _ & Hi).
    destruct (run_invocations E policy d (plan_start memory st))
      as (l & Hl & _ & Hn).
    exists l. rewrite Hi. split; [exact Hl|]. intros W.
    assert (N : opportunity (snd (plan E policy d memory st)) = None)
      by (rewrite Ho; exact (Hn W)).
    split; [exact N|]. intros v Hv. apply plan_result in Hv. congruence.
Qed.

(** C10, as amended.  A notify invocation that finds the Opportunity slot
    none, as the first of a run does, and whose transport call raises:
    the transport is called, the exception leaves the handler, and no
    Opportunity is recorded, the slot is still none and the memory is as
    it was.  With tools that raise the handler's exception again, the run
    ends there with the slot none. *)
Theorem failed_notification_records_nothing
  description deal_price estimated_true_value url (st : State World) e w :
  opportunity st = None ->
  notify E description deal_price estimated_true_value url (world st)
  = (Raised e, w) ->
  (let r := notify_user_of_deal E description deal_price
              estimated_true_value url st in
   fst r = Raised e /\ opportunity (snd r) = None /\
   memory (snd r) = memory st /\
   calls (snd r)
   = calls st ++ [{| target := Notify description deal_price
                                 estimated_true_value url;
                     failed := true |}]) /\
  (forall next,
      let r := Runner_run E None
                 (Invoke (notify_call description deal_price
                            estimated_true_value url) next) st in
      fst r = Raised e /\ opportunity (snd r) = None).
Proof.
  intros Ho Hn. split.
  - cbv zeta.
    rewrite (notify_when_transport_raises E _ _ _ _ _ _ _ Ho Hn).
    simpl. auto.
  - intros next. cbv zeta. rewrite Runner_run_invoke.
    unfold function_tool. cbn [handler].
    assert (Ho' : opportunity
                    (snd (record_invocation
                            (notify_call description deal_price
                               estimated_true_value url) st)) = None)
      by exact Ho.
    rewrite (notify_when_transport_raises E _ _ _ _ _ e w Ho' Hn).
    simpl. auto.
Qed.

End Claims.

(** C4.  [get_price] drops the dollar signs and the commas, takes the first
    numeral of what is left (at the leftmost place where a floating-point
    or integer numeral starts, the longest one) and returns its value, or
    0.0 when there is no numeral; it never fails.  The three examples of
    the specification. *)
Theorem get_price_extracts_first_numeral :
  (forall s, get_price s = Some (get_price_spec s)) /\
  get_price "$1,234.50" = Some (F64.lit 1234.5) /\
  get_price "no digits here" = Some (F64.lit 0) /\
  get_price "Price is $999" = Some (F64.lit 999).
Proof.
  split; [exact get_price_refines|].
  repeat split; vm_compute; reflexivity.
Qed.

(** The pattern at work: an integer loses its sign, a point needs a digit
    after it, and the first alternative wins where it matches. *)
Example get_price_examples :
  get_price "-5" = Some (F64.lit 5) /\
  get_price "-.5" = Some (F64.lit (-0.5)) /\
  get_price "12." = Some (F64.lit 12) /\
  get_price "1.5.3" = Some (F64.lit 1.5) /\
  get_price "about 3 or 4.5" = Some (F64.lit 3) /\
  get_price "1,5" = Some (F64.lit 15).
Proof. repeat split; vm_compute; reflexivity. Qed.

(* ================================================================= *)
(** * The claims on the concrete world *)

(** The scenario of the specification, run through [plan]: the Opportunity
    returned has discount 30.0, and the relation of C1 holds of it. *)
Lemma plan_discount_witness :
  fst (plan Demo.services (Some default_tool_error_function)
         Demo.scenario [] (Demo.init Demo.calm))
  = Returned (Some Demo.opp) /\
  discount Demo.opp = F64.lit 30 /\
  discount Demo.opp = F64.sub (estimate Demo.opp) (price (deal Demo.opp)).
Proof.
  assert (H : fst (plan Demo.services (Some default_tool_error_function)
                     Demo.scenario [] (Demo.init Demo.calm))
              = Returned (Some Demo.opp))
    by (vm_compute; reflexivity).
  split; [exact H|]. split; [vm_compute; reflexivity|].
  exact (plan_discount_is_estimate_minus_price Demo.services _ _ _ _ _ H).
Defined.

(** With the Opportunity captured, a notify with other values is a no-op,
    and the rest of the scenario leaves the Opportunity as it is. *)
Lemma notify_after_capture_witness :
  opportunity Demo.holding = Some Demo.opp /\
  fst (function_tool (Some default_tool_error_function)
         (notify_user_of_deal Demo.services "Gadget Y" Demo.fifty Demo.twenty
            "http://y") Demo.holding)
  = Returned "notification sent"%string /\
  opportunity
    (snd (Runner_run Demo.services (Some default_tool_error_function)
            Demo.scenario Demo.holding))
  = Some Demo.opp.
Proof.
  assert (H : opportunity Demo.holding = Some Demo.opp) by reflexivity.
  pose proof (notify_after_capture_is_a_no_op Demo.services
                (Some default_tool_error_function) Demo.holding Demo.opp H)
    as (H1 & _ & H3).
  split; [exact H|]. split.
  - exact (proj1 (H1 "Gadget Y"%string Demo.fifty Demo.twenty "http://y"%string)).
  - exact (proj1 (H3 Demo.scenario)).
Defined.

(** Both estimators at 50.0: the estimate returned is 50.0. *)
Lemma estimate_true_value_witness :
  fst (estimate_true_value Demo.services "Widget X" (Demo.init Demo.calm))
  = Returned (json_dumps Demo.services
                {| description := "Widget X";
                   estimated_true_value :=
                     F64.div (F64.add Demo.fifty Demo.fifty) F64.two |}) /\
  F64.div (F64.add Demo.fifty Demo.fifty) F64.two = Demo.fifty.
Proof.
  split; [|vm_compute; reflexivity].
  refine (proj1 (estimate_true_value_is_the_mean Demo.services "Widget X"
                   (Demo.init Demo.calm)
                   (snd (frontier_price Demo.services "Widget X"
                           (snd (log "Autonomous Planning agent is estimating value"
                                   (Demo.init Demo.calm)))))
                   Demo.fifty Demo.fifty Demo.calm _ _));
    vm_compute; reflexivity.
Defined.

(** C5 fails as stated: a reply without a digit is priced at 0.0, which is
    not a positive number. *)
Lemma frontier_price_not_positive :
  fst (frontier_price Demo.services "Widget X" (Demo.init Demo.vague))
  = Returned F64.zero /\
  F64.ltb F64.zero F64.zero = false.
Proof. split; vm_compute; reflexivity. Qed.

(** The same reply, through the amended C5. *)
Lemma frontier_price_witness :
  fst (frontier_price Demo.services "Widget X" (Demo.init Demo.vague))
  = Returned (get_price_spec "no digits here") /\
  get_price_spec "no digits here" = F64.zero.
Proof.
  pose proof (frontier_price_is_the_parsed_reply Demo.services "Widget X"
                (Demo.init Demo.vague)
                (snd (find_similars Demo.services "Widget X"
                        (Demo.init Demo.vague)))
                (["A widget much like it"%string], [Demo.fifty])
                "no digits here" Demo.vague) as H.
  destruct H as (H1 & _ & H3); [vm_compute; reflexivity ..|].
  split; [exact H1|]. apply H3. vm_compute. reflexivity.
Defined.

(** C7 fails as stated: the notification goes out, then the scanner fails.
    With tools that raise again, [plan] raises and the slot holds the
    Opportunity; with the decorator's default, [plan] does not raise at all
    and returns the Opportunity, although a collaborator failed. *)
Lemma failure_after_capture :
  (let r := plan Demo.services None Demo.notify_then_scan []
              (Demo.init Demo.scanner_out) in
   fst r = Raised "scanner unavailable"%string /\
   opportunity (snd r) = Some Demo.opp /\
   existsb failed (calls (snd r)) = true) /\
  (let r := plan Demo.services (Some default_tool_error_function)
              Demo.notify_then_scan [] (Demo.init Demo.scanner_out) in
   fst r = Returned (Some Demo.opp) /\
   opportunity (snd r) = Some Demo.opp /\
   existsb failed (calls (snd r)) = true).
Proof. repeat split; vm_compute; reflexivity. Qed.

(** The scanner finds nothing and the decision process stops: the scan
    capability returned the empty text, and [plan] returns none. *)
Lemma scanner_yields_nothing_witness :
  fst (scan_the_internet_for_bargains Demo.services (Demo.init Demo.barren))
  = Returned EmptyString /\
  fst (plan Demo.services (Some default_tool_error_function) Demo.scan_only []
         (Demo.init Demo.barren))
  = Returned None.
Proof.
  destruct (scanner_yields_nothing Demo.services
              (Some default_tool_error_function)) as [H1 H2].
  split.
  - apply (H1 (Demo.init Demo.barren) Demo.barren). reflexivity.
  - destruct (H2 Demo.scan_only [] (Demo.init Demo.barren)) as (l & Hl & Hn).
    vm_compute in Hl. subst l.
    destruct (Hn eq_refl) as [_ Hv].
    assert (R : exists v,
               fst (plan Demo.services (Some default_tool_error_function)
                      Demo.scan_only [] (Demo.init Demo.barren))
               = Returned v) by (eexists; vm_compute; reflexivity).
    destruct R as [v R]. rewrite R. f_equal. exact (Hv v R).
Defined.

(** C10 fails as stated for a whole run: the transport raises on the first
    notify invocation, the decision process is told so and notifies again,
    and the run records an Opportunity. *)
Lemma retried_notification_is_recorded :
  let r := plan Demo.services (Some default_tool_error_function)
             Demo.notify_with_retry [] (Demo.init Demo.flaky) in
  map failed (filter is_notify (calls (snd r))) = [true; false] /\
  map fst (invocations (snd r))
  = [notify_call "Widget X" Demo.twenty Demo.fifty "http://x";
     notify_call "Widget X" Demo.twenty Demo.fifty "http://x"] /\
  fst r = Returned (Some Demo.opp).
Proof. repeat split; vm_compute; reflexivity. Qed.

(** The failing invocation itself records nothing. *)
Lemma failed_notification_witness :
  opportunity (Demo.init Demo.flaky) = None /\
  (let r := notify_user_of_deal Demo.services "Widget X" Demo.twenty
              Demo.fifty "http://x" (Demo.init Demo.flaky) in
   fst r = Raised "push failed"%string /\ opportunity (snd r) = None).
Proof.
  assert (H : opportunity (Demo.init Demo.flaky) = None) by reflexivity.
  split; [exact H|].
  destruct (failed_notification_records_nothing Demo.services
              "Widget X" Demo.twenty Demo.fifty "http://x"
              (Demo.init Demo.flaky) "push failed"%string
              (world (snd (notify_user_of_deal Demo.services "Widget X"
                             Demo.twenty Demo.fifty "http://x"
                             (Demo.init Demo.flaky))))
              H ltac:(vm_compute; reflexivity)) as [(H1 & H2 & _) _].
  cbv zeta. split; [exact H1 | exact H2].
Defined.

(* ================================================================= *)
(** * Further properties of the parser *)

Lemma chars_app (a b : string) : chars (a ++ b) = chars a ++ chars b.
Proof.
  unfold chars. induction a as [|c a IH]; simpl; [reflexivity|].
  now rewrite IH.
Qed.

Lemma strip_currency_app a b :
  strip_currency (a ++ b) = strip_currency a ++ strip_currency b.
Proof. apply filter_app. Qed.

Lemma get_price_of_stripped s t :
  strip_currency (chars s) = strip_currency (chars t) ->
  get_price s = get_price t.
Proof.
  intros H. rewrite !get_price_refines. unfold get_price_spec. now rewrite H.
Qed.

(** X1.  Dollar signs and commas count for nothing wherever they stand:
    taking one out of the text, at any place, leaves the price read
    unchanged.  So digits on both sides of a comma are read as one
    number. *)
Theorem get_price_ignores_currency_marks (a b : string) :
  get_price (a ++ "$" ++ b) = get_price (a ++ b) /\
  get_price (a ++ "," ++ b) = get_price (a ++ b).
Proof.
  split; apply get_price_of_stripped;
    rewrite !chars_app, !strip_currency_app; reflexivity.
Qed.

(** *** A numeral among words *)

(** A character that can stand in no numeral. *)
Definition is_plain (c : ascii) : bool :=
  negb (is_digit c || is_sign c || is_dot c).

Lemma first_numeral_eq s :
  first_numeral s =
  match longest_prefix is_numeral s with
  | Some l => Some l
  | None =>
      match s with
      | _ :: s' => first_numeral s'
      | [] => None
      end
  end.
Proof. destruct s; reflexivity. Qed.

Lemma longest_prefix_none_intro P s :
  (forall l r, s = l ++ r -> P l = false) -> longest_prefix P s = None.
Proof.
  intros H. destruct (longest_prefix P s) as [l|] eqn:E; [|reflexivity].
  apply longest_prefix_some in E as ((r & Hs) & Hl & _).
  rewrite (H l r Hs) in Hl. discriminate.
Qed.

Lemma numeral_head l :
  is_numeral l = true ->
  match l with
  | c :: _ => is_plain c = false
  | [] => False
  end.
Proof.
  unfold is_numeral, is_plain. intros H. apply orb_prop in H as [H|H].
  - apply float_numeral_shape in H as (ip & c & d & fp & U & Hip & Hc & _).
    destruct l as [|c0 r]; [now destruct ip|]. simpl in U.
    destruct (is_sign c0) eqn:S0; [now rewrite orb_true_r|].
    destruct ip as [|e ip]; simpl in U, Hip; injection U as -> _.
    + now rewrite Hc, orb_true_r.
    + apply andb_prop in Hip as [-> _]. reflexivity.
  - apply integer_numeral_digits in H as [Hne Hd].
    destruct l as [|c0 r]; [congruence|]. simpl in Hd.
    apply andb_prop in Hd as [-> _]. reflexivity.
Qed.

Lemma first_numeral_skips_plain p s :
  forallb is_plain p = true -> first_numeral (p ++ s) = first_numeral s.
Proof.
  induction p as [|c p IH]; cbn [app forallb]; [reflexivity|]. intros H.
  apply andb_prop in H as [Hc Hp].
  rewrite (first_numeral_eq (c :: p ++ s)), longest_prefix_none_intro;
    [now apply IH|].
  intros l r Hl. destruct (is_numeral l) eqn:N; [|reflexivity].
  apply numeral_head in N. destruct l as [|c' l]; [destruct N|].
  injection Hl as <- _. congruence.
Qed.

Lemma float_rest_exact l r :
  is_float_numeral l = true ->
  float_rest (l ++ r) = Some (drop_while is_digit r).
Proof.
  unfold is_float_numeral, float_rest. intros H.
  assert (Hl : l <> []) by (intros ->; discriminate).
  rewrite (unsigned_app l r Hl).
  rewrite <- (take_drop_while is_digit (unsigned l)), <- app_assoc.
  rewrite drop_while_app by apply take_while_all.
  destruct (drop_while is_digit (unsigned l)) as [|c fp] eqn:E; [discriminate|].
  apply andb_prop in H as [Hc Hfp].
  destruct fp as [|d fp]; [discriminate|]. simpl in Hfp.
  apply andb_prop in Hfp as [Hd Hfp].
  simpl app. rewrite drop_while_stop by now apply dot_not_digit.
  rewrite Hc, Hd. simpl. now rewrite drop_while_app.
Qed.

(** What may follow a numeral without changing it: nothing, or a character
    that is neither a digit nor a point. *)
Definition ends_numeral (r : text) : bool :=
  match r with
  | c :: _ => negb (is_digit c || is_dot c)
  | [] => true
  end.

Lemma price_rest_exact l r :
  is_numeral l = true -> ends_numeral r = true -> price_rest (l ++ r) = Some r.
Proof.
  unfold is_numeral, price_rest, ends_numeral. intros H Hr.
  assert (Dr : drop_while is_digit r = r).
  { destruct r as [|c r]; [reflexivity|]. apply drop_while_stop.
    now destruct (is_digit c). }
  destruct (is_float_numeral l) eqn:F.
  - now rewrite (float_rest_exact l r F), Dr.
  - simpl in H. apply integer_numeral_digits in H as [Hne Hd].
    destruct l as [|d ds]; [congruence|]. simpl in Hd.
    apply andb_prop in Hd as [Hd Hds].
    assert (N : float_rest ((d :: ds) ++ r) = None).
    { unfold float_rest. simpl app. simpl unsigned.
      rewrite (digit_not_sign _ Hd). simpl drop_while.
      rewrite Hd, drop_while_app, Dr by assumption.
      destruct r as [|c [|d2 r2]]; try reflexivity.
      destruct (is_dot c); [|reflexivity].
      now rewrite orb_true_r in Hr. }
    rewrite N. simpl. now rewrite Hd, drop_while_app, Dr.
Qed.

Lemma first_numeral_at_head l r :
  is_numeral l = true -> ends_numeral r = true ->
  first_numeral (l ++ r) = Some l.
Proof.
  intros Hl Hr.
  rewrite first_numeral_eq, <- match_at_longest_numeral. unfold match_at.
  rewrite match_price_pattern, (price_rest_exact l r Hl Hr).
  rewrite length_app.
  replace (List.length l + List.length r - List.length r)%nat
    with (List.length l + 0)%nat by lia.
  now rewrite firstn_app_2, firstn_O, app_nil_r.
Qed.

Lemma plain_not_currency_or_not l :
  forallb (fun c => negb (is_plain c)) l = true -> strip_currency l = l.
Proof.
  unfold strip_currency. intros H. apply filter_all.
  revert H. induction l as [|c l IH]; simpl; [reflexivity|].
  intros H. apply andb_prop in H as [Hc Hl]. rewrite (IH Hl), andb_true_r.
  clear - Hc. destruct c as [[] [] [] [] [] [] [] []]; vm_compute in *;
    congruence.
Qed.

Lemma numeral_chars l :
  is_numeral l = true -> forallb (fun c => negb (is_plain c)) l = true.
Proof.
  assert (D : forall ds, forallb is_digit ds = true ->
                         forallb (fun c => negb (is_plain c)) ds = true).
  { induction ds as [|c ds IH]; simpl; [reflexivity|]. intros H.
    apply andb_prop in H as [Hc Hds]. unfold is_plain at 1.
    now rewrite Hc, (IH Hds). }
  unfold is_numeral. intros H. apply orb_prop in H as [H|H].
  - apply float_numeral_shape in H as (ip & c & d & fp & U & Hip & Hc & Hd & Hfp).
    assert (Hu : forallb (fun c => negb (is_plain c)) (unsigned l) = true).
    { rewrite U, forallb_app, (D ip Hip). simpl. unfold is_plain at 1 2.
      now rewrite Hc, Hd, orb_true_r, (D fp Hfp). }
    destruct l as [|c0 r]; [reflexivity|]. simpl in *.
    destruct (is_sign c0) eqn:S0; [|exact Hu].
    unfold is_plain at 1. now rewrite S0, orb_true_r, Hu.
  - apply integer_numeral_digits in H as [_ Hd]. now apply D.
Qed.

Lemma strip_currency_plain p :
  forallb is_plain p = true -> forallb is_plain (strip_currency p) = true.
Proof.
  unfold strip_currency. induction p as [|c p IH]; simpl; [reflexivity|].
  intros H. apply andb_prop in H as [Hc Hp].
  destruct (negb _); simpl; [now rewrite Hc, IH | now apply IH].
Qed.

(** X2.  A numeral among words is read whole and alone: behind any text
    without digits, signs and points, and before anything that, dollar
    signs and commas apart, does not go on with a digit or a point, the
    numeral is what [get_price] returns. *)
Theorem get_price_reads_embedded_numeral (before numeral after : string) :
  forallb is_plain (chars before) = true ->
  is_numeral (chars numeral) = true ->
  ends_numeral (strip_currency (chars after)) = true ->
  get_price (before ++ numeral ++ after)
  = Some (numeral_value (chars numeral)).
Proof.
  intros Hb Hn Ha. rewrite get_price_refines. unfold get_price_spec.
  rewrite !chars_app, !strip_currency_app.
  rewrite (plain_not_currency_or_not _ (numeral_chars _ Hn)).
  rewrite first_numeral_skips_plain by now apply strip_currency_plain.
  now rewrite first_numeral_at_head.
Qed.

Lemma get_price_embedded_witness :
  get_price ("Price is $" ++ "1234.50" ++ " or so")
  = Some (numeral_value (chars "1234.50")) /\
  numeral_value (chars "1234.50") = F64.lit 1234.5.
Proof.
  split; [|vm_compute; reflexivity].
  apply (get_price_reads_embedded_numeral "Price is $" "1234.50" " or so");
    reflexivity.
Defined.

(** *** The sign of the price read *)

(** The sign bit of a number: set on negative numbers and on -0.0. *)
Definition sign_bit (x : float) : bool :=
  match x with
  | S754_zero s | S754_infinity s | S754_finite s _ _ => s
  | S754_nan => false
  end.

Lemma binary_round_aux_sign sx mx ex lx :
  (0 <= mx)%Z -> sign_bit (binary_round_aux prec emax sx mx ex lx) = sx.
Proof.
  intros Hm. unfold binary_round_aux.
  pose proof (shr_fexp_nonneg mx ex lx Hm) as H1.
  destruct (shr_fexp prec emax mx ex lx) as [mrs' e']. simpl in H1.
  pose proof (shr_fexp_nonneg _ e' loc_Exact
                (round_nearest_even_nonneg _ (loc_of_shr_record mrs') H1)) as H2.
  destruct (shr_fexp prec emax
              (round_nearest_even (shr_m mrs') (loc_of_shr_record mrs'))
              e' loc_Exact) as [mrs'' e'']. simpl in H2.
  destruct (shr_m mrs'') as [|p|p]; try reflexivity; [|lia].
  now destruct (e'' <=? emax - prec)%Z.
Qed.

Lemma of_decimal_sign neg m k : sign_bit (F64.of_decimal neg m k) = neg.
Proof.
  unfold F64.of_decimal. destruct m as [|p|p]; try reflexivity.
  pose proof (Z.pow_pos_nonneg 10 (Z.of_nat k) ltac:(lia) ltac:(lia)) as H.
  destruct (10 ^ Z.of_nat k)%Z as [|q|q]; try lia.
  unfold F64.div, SFdiv, SFdiv_core_binary.
  set (m' := match (0 - 0 - _)%Z with
             | Zpos _ => _
             | Z0 => _
             | Zneg _ => _
             end).
  assert (Hm : (0 <= m')%Z).
  { subst m'. destruct (0 - 0 - _)%Z; try lia.
    apply Z.shiftl_nonneg. lia. }
  pose proof (Z.div_pos m' (Zpos q) Hm ltac:(lia)) as Hq.
  unfold Z.div in Hq.
  destruct (Z.div_eucl m' (Zpos q)) as [q' r]. simpl in Hq.
  rewrite binary_round_aux_sign by assumption. now destruct neg.
Qed.

Lemma longest_prefix_incl s l :
  longest_prefix is_numeral s = Some l -> incl l s.
Proof.
  intros H. apply longest_prefix_some in H as ((r & ->) & _).
  now apply incl_appl, incl_refl.
Qed.

Lemma first_numeral_incl s l : first_numeral s = Some l -> incl l s.
Proof.
  induction s as [|c s IH]; cbn [first_numeral];
    destruct (longest_prefix is_numeral _) as [l0|] eqn:E;
    try discriminate;
    try (intros H; injection H as <-; now apply longest_prefix_incl).
  intros H. now apply incl_tl, IH.
Qed.

Lemma strip_currency_incl s : incl (strip_currency s) s.
Proof. intros c H. now apply filter_In in H as [H _]. Qed.

Lemma no_dot_not_float l :
  existsb is_dot l = false -> is_float_numeral l = false.
Proof.
  intros H. destruct (is_float_numeral l) eqn:F; [|reflexivity].
  apply float_numeral_shape in F as (ip & c & d & fp & U & _ & Hc & _).
  assert (In c l).
  { destruct l as [|c0 r]; [now destruct ip|]. simpl in U.
    destruct (is_sign c0); [right|]; rewrite U; apply in_or_app; right;
      now left. }
  assert (existsb is_dot l = true) by (apply existsb_exists; eauto).
  congruence.
Qed.

Lemma float_numeral_has_dot l :
  is_float_numeral l = true -> existsb is_dot l = true.
Proof.
  intros F. destruct (existsb is_dot l) eqn:X; [reflexivity|].
  now rewrite (no_dot_not_float l X) in F.
Qed.

(** X3.  Only a numeral with a decimal point can carry a sign, so a price
    read with the sign bit set (a negative number, or -0.0) takes a text
    that holds both a minus sign and a point: a minus sign before a whole
    number is dropped. *)
Theorem get_price_negative_needs_signed_point (s : string) v :
  get_price s = Some v ->
  sign_bit v = true ->
  existsb (Ascii.eqb "-") (chars s) = true /\
  existsb is_dot (chars s) = true.
Proof.
  intros Hv. rewrite get_price_refines in Hv. injection Hv as <-.
  unfold get_price_spec.
  destruct (first_numeral (strip_currency (chars s))) as [l|] eqn:E;
    [|discriminate].
  unfold numeral_value. rewrite of_decimal_sign. intros Hneg.
  pose proof (first_numeral_is_numeral _ _ E) as N.
  apply first_numeral_incl in E.
  assert (I : forall c, In c l -> In c (chars s))
    by (intros c Hc; now apply E, strip_currency_incl in Hc).
  destruct l as [|c0 r]; [discriminate|].
  assert (F : is_float_numeral (c0 :: r) = true).
  { unfold is_numeral in N. apply orb_prop in N as [N|N]; [exact N|].
    apply integer_numeral_digits in N as [_ Hd]. simpl in Hd.
    apply andb_prop in Hd as [Hd _].
    apply digit_not_sign, not_sign_not_minus in Hd. congruence. }
  split.
  - apply existsb_exists. exists c0. split; [apply I; now left|].
    now rewrite Ascii.eqb_sym.
  - apply float_numeral_has_dot, existsb_exists in F as (c & Hc & Hd).
    apply existsb_exists. exists c. split; [now apply I|exact Hd].
Qed.

Lemma get_price_negative_witness :
  get_price "about -.5" = Some (F64.lit (-0.5)) /\
  sign_bit (F64.lit (-0.5)) = true /\
  existsb (Ascii.eqb "-") (chars "about -.5") = true /\
  existsb is_dot (chars "about -.5") = true.
Proof.
  assert (H : get_price "about -.5" = Some (F64.lit (-0.5)))
    by (vm_compute; reflexivity).
  split; [exact H|]. split; [reflexivity|].
  exact (get_price_negative_needs_signed_point "about -.5" (F64.lit (-0.5))
           H eq_refl).
Defined.

(** *** When the pattern matches *)

Lemma digit_starts_numeral c s :
  is_digit c = true -> longest_prefix is_numeral (c :: s) <> None.
Proof.
  intros Hc H.
  pose proof (longest_prefix_none _ _ H [c] s eq_refl) as N.
  unfold is_numeral in N. simpl in N. rewrite Hc in N. simpl in N.
  now rewrite orb_true_r in N.
Qed.

Lemma digit_gives_numeral s :
  existsb is_digit s = true -> first_numeral s <> None.
Proof.
  induction s as [|c s IH]; [discriminate|]. intros H.
  rewrite first_numeral_eq.
  destruct (longest_prefix is_numeral (c :: s)) as [l|] eqn:E; [discriminate|].
  simpl in H. destruct (is_digit c) eqn:Hc.
  - now apply digit_starts_numeral in E.
  - now apply IH.
Qed.

Lemma strip_currency_digit s :
  existsb is_digit (strip_currency s) = existsb is_digit s.
Proof.
  unfold strip_currency. induction s as [|c s IH]; simpl; [reflexivity|].
  destruct (negb _) eqn:N; simpl; [now rewrite IH|]. rewrite IH.
  replace (is_digit c) with false; [reflexivity|].
  clear - N. destruct c as [[] [] [] [] [] [] [] []]; vm_compute in *;
    congruence.
Qed.

(** X10.  The search for a numeral fails on exactly the texts that hold no
    digit: wherever there is a digit [get_price] reads a numeral, and the
    0.0 of the fallback is returned for digit-free texts only. *)
Theorem price_pattern_matches_digits (s : string) :
  re_search price_pattern (replace "," [] (replace "$" [] (chars s))) = None
  <-> existsb is_digit (chars s) = false.
Proof.
  rewrite strip_currency_eq. unfold re_search.
  pose proof (search_first_numeral 0 (strip_currency (chars s))) as H.
  split.
  - intros Hn. rewrite Hn in H. simpl in H.
    destruct (existsb is_digit (chars s)) eqn:D; [|reflexivity].
    rewrite <- strip_currency_digit in D.
    apply digit_gives_numeral in D. congruence.
  - intros D. apply strip_currency_no_digit, no_digit_no_numeral in D.
    rewrite D in H.
    now destruct (search_from price_pattern 0 (strip_currency (chars s))).
Qed.

(* ================================================================= *)
(** * Further properties of the frontier agent *)

Section Frontier.

Context {World : Type}.
Variable E : Services World.

Local Open Scope string_scope.

(** *** The context given to the pricing model *)

Definition context_header : string :=
  "To provide some context, here are some other items that might be similar to the item you need to estimate."
    ++ nl ++ nl.

Definition context_block (sp : string * float) : string :=
  "Potentially related product:" ++ nl ++ fst sp ++ nl
    ++ "Price is $" ++ format_2f E (snd sp) ++ nl ++ nl.

Lemma append_assoc (a b c : string) : (a ++ b) ++ c = a ++ b ++ c.
Proof. induction a as [|x a IH]; simpl; [reflexivity|]. now rewrite IH. Qed.

Lemma append_empty (a : string) : a ++ "" = a.
Proof. induction a as [|x a IH]; simpl; [reflexivity|]. now rewrite IH. Qed.

Lemma fold_blocks (l : list (string * float)) (h : string) :
  fold_left (fun message sp => message ++ context_block sp) l h
  = h ++ String.concat "" (map context_block l).
Proof.
  revert h. induction l as [|sp l IH]; intros h; simpl.
  - now rewrite append_empty.
  - rewrite IH, append_assoc. destruct l as [|sp' l]; simpl.
    + now rewrite !append_empty.
    + reflexivity.
Qed.

Lemma combine_firstn_min (A B : Type) (l : list A) (l' : list B) :
  combine (firstn (Nat.min (List.length l) (List.length l')) l)
          (firstn (Nat.min (List.length l) (List.length l')) l')
  = combine l l'.
Proof.
  revert l'. induction l as [|a l IH]; intros [|b l']; simpl; try reflexivity.
  now rewrite IH.
Qed.

(** X4.  The context is the heading followed by one block per pair of a
    similar item and its price, in order; the pairing stops with the
    shorter list, so items or prices beyond it are left out without
    notice, and with either list empty the context is the bare heading. *)
Theorem make_context_pairs (similars : list string) (prices : list float) :
  make_context E similars prices
  = context_header
      ++ String.concat "" (map context_block (combine similars prices)) /\
  make_context E similars prices
  = make_context E
      (firstn (Nat.min (List.length similars) (List.length prices)) similars)
      (firstn (Nat.min (List.length similars) (List.length prices)) prices) /\
  make_context E [] prices = context_header /\
  make_context E similars [] = context_header.
Proof.
  assert (F : forall ss ps,
             make_context E ss ps
             = context_header
                 ++ String.concat "" (map context_block (combine ss ps))).
  { intros ss ps. unfold make_context. apply (fold_blocks (combine ss ps)). }
  split; [|split; [|split]].
  - apply F.
  - now rewrite !F, combine_firstn_min.
  - reflexivity.
  - destruct similars; reflexivity.
Qed.

(** *** The calls [price] makes *)



Lemma get_price_m_eq reply :
  get_price_m (World := World) reply = ret (get_price_spec reply).
Proof. unfold get_price_m. now rewrite get_price_refines. Qed.

(** The state after a log line, and after a call. *)
Definition logged (st : State World) (msg : string) : State World :=
  snd (log msg st).

Definition called (st : State World) (sv : service) (bad : bool) (w : World)
  : State World :=
  {| memory := memory st; opportunity := opportunity st; world := w;
     journal := journal st;
     calls := (calls st ++ [{| target := sv; failed := bad |}])%list;
     invocations := invocations st |}.

Lemma bind_assoc (A B C : Type) (m : M A) (f : A -> M B) (g : B -> M C)
  (st : State World) :
  bind (bind m f) g st = bind m (fun a => bind (f a) g) st.
Proof. unfold bind. now destruct (m st) as [[a|e] st1]. Qed.

Lemma bind_log_eq (B : Type) msg (k : unit -> M B) (st : State World) :
  bind (log msg) k st = k tt (logged st msg).
Proof. reflexivity. Qed.

Lemma bind_ret_eq (A B : Type) (a : A) (k : A -> M B) (st : State World) :
  bind (ret a) k st = k a st.
Proof. reflexivity. Qed.

Lemma bind_call_eq (A B : Type) sv (f : World -> outcome A * World)
  (k : A -> M B) (st : State World) :
  bind (call_service sv f) k st =
  match f (world st) with
  | (Returned a, w) => k a (called st sv false w)
  | (Raised e, w) => (Raised e, called st sv true w)
  end.
Proof.
  unfold bind, call_service. now destruct (f (world st)) as [[a|e] w].
Qed.

Lemma calls_logged (st : State World) msg : calls (logged st msg) = calls st.
Proof. reflexivity. Qed.

Lemma calls_called (st : State World) sv bad w :
  calls (called st sv bad w)
  = (calls st ++ [{| target := sv; failed := bad |}])%list.
Proof. reflexivity. Qed.

Lemma world_logged (st : State World) msg : world (logged st msg) = world st.
Proof. reflexivity. Qed.

Lemma world_called (st : State World) sv bad w :
  world (called st sv bad w) = w.
Proof. reflexivity. Qed.




End Frontier.

(* ================================================================= *)
(** * Further properties of the planning agent *)

Section Capabilities.

Context {World : Type}.
Variable E : Services World.

Lemma bind_get_memory_eq (B : Type) (k : option (list string) -> M B)
  (st : State World) :
  bind get_memory k st = k (memory st) st.
Proof. reflexivity. Qed.

(** The collaborators a capability may call, in the state it starts from:
    the scanner with the memory of the run; the services behind the two
    estimators, the specialist with the description given; the transport
    with the arguments given, and only while the slot is empty. *)
Definition own_call (st : State World) (c : tool_call) (sv : service) : Prop :=
  match c, sv with
  | scan_call, Scan m => m = memory st
  | estimate_call _, (Completion _ _ _ | Encode _ | Query _ _) => True
  | estimate_call d, SpecialistPrice d' => d' = d
  | notify_call d p e u, Notify d' p' e' u' =>
      d' = d /\ p' = p /\ e' = e /\ u' = u /\ opportunity st = None
  | _, _ => False
  end.

(** The most calls one invocation of a capability makes. *)
Definition most_calls (c : tool_call) : nat :=
  match c with
  | scan_call => 1
  | estimate_call _ => 5
  | notify_call _ _ _ _ => 1
  end.

Ltac split_call H :=
  match type of H with
  | context [match ?x with (_, _) => _ end] => destruct x as [[?|?] ?]
  end.

Ltac run_all H :=
  repeat (repeat (first [ rewrite bind_assoc in H
                        | rewrite get_price_m_eq in H
                        | rewrite bind_get_memory_eq in H
                        | rewrite bind_log_eq in H
                        | rewrite bind_ret_eq in H
                        | rewrite bind_call_eq in H ];
                  cbv beta in H;
                  rewrite ?world_logged, ?world_called in H);
          try split_call H).

Ltac show_calls :=
  subst; unfold ret; cbn [fst snd];
  repeat (rewrite calls_called || rewrite calls_logged);
  rewrite <- ?app_assoc;
  eexists; split; [reflexivity|].

(** X6.  A capability calls no collaborator but its own, and leaves the
    memory and the record of invocations alone: scan calls the scanner,
    once, with the memory of the run; estimate calls the services behind
    the two estimators, five times at most; notify calls the transport,
    with its own arguments, once at most and only while no Opportunity is
    recorded.  Scan and estimate leave the Opportunity slot as it is,
    whether they return or raise. *)
Theorem handler_calls c (st : State World) :
  exists l,
    calls (snd (handler E c st)) = calls st ++ l /\
    Forall (fun k => own_call st c (target k)) l /\
    List.length l <= most_calls c /\
    memory (snd (handler E c st)) = memory st /\
    invocations (snd (handler E c st)) = invocations st /\
    (is_notify_call c = false ->
     opportunity (snd (handler E c st)) = opportunity st).
Proof.
  destruct c as [|d|d p e u]; cbn [handler is_notify_call].
  - remember (scan_the_internet_for_bargains E st) as X eqn:HX.
    unfold scan_the_internet_for_bargains in HX. run_all HX;
      show_calls; repeat split; auto; repeat constructor.
  - remember (estimate_true_value E d st) as X eqn:HX.
    unfold estimate_true_value, frontier_price, find_similars, preprocess in HX.
    run_all HX; show_calls; repeat split; auto; repeat constructor.
  - destruct (notify_cases E d p e u st) as [o Ho | w Ho Hn | e' w Ho Hn];
      [ rewrite (notify_when_captured E _ _ _ _ _ _ Ho)
      | rewrite (notify_when_sent E _ _ _ _ _ _ Ho Hn)
      | rewrite (notify_when_transport_raises E _ _ _ _ _ _ _ Ho Hn) ];
      cbn [fst snd calls memory invocations log].
    + exists []. rewrite app_nil_r.
      repeat split; auto; try discriminate. simpl; lia.
    + eexists. split; [reflexivity|]. repeat split; auto; try discriminate.
      repeat constructor; auto.
    + eexists. split; [reflexivity|]. repeat split; auto; try discriminate.
      repeat constructor; auto.
Qed.

End Capabilities.

Section WholeRuns.

Context {World : Type}.
Variable E : Services World.

(** A relation that the handlers and the record of invocations keep is
    kept by a whole run. *)
Lemma keeps_run_from_handlers (R : State World -> State World -> Prop)
  policy d :
  (forall st, R st st) ->
  (forall a b c, R a b -> R b c -> R a c) ->
  (forall c, keeps R (record_invocation c)) ->
  (forall c, keeps R (handler E c)) ->
  keeps R (Runner_run E policy d).
Proof.
  intros Hrefl Htrans Hrec Hh.
  induction d as [out | c next IH | e]; intros st.
  - apply Hrefl.
  - rewrite Runner_run_invoke.
    pose proof (Hrec c st) as H1.
    pose proof (Hh c (snd (record_invocation c st))) as H2.
    rewrite <- (function_tool_state policy) in H2.
    destruct (function_tool policy (handler E c) (snd (record_invocation c st)))
      as [[out|e] st2]; simpl in H2.
    + exact (Htrans _ _ _ (Htrans _ _ _ H1 H2) (IH out st2)).
    + exact (Htrans _ _ _ H1 H2).
  - apply Hrefl.
Qed.

(** *** The memory of a run *)

Definition scans_with (m : option (list string)) (l : list call) : Prop :=
  Forall (fun k => forall m', target k = Scan m' -> m' = m) l.

Definition keeps_memory (st st' : State World) : Prop :=
  memory st' = memory st /\
  exists l, calls st' = calls st ++ l /\ scans_with (memory st) l.

Lemma handler_keeps_memory c : keeps keeps_memory (handler E c).
Proof.
  intros st. destruct (handler_calls E c st) as (l & Hl & Hown & _ & Hm & _ & _).
  split; [exact Hm|]. exists l. split; [exact Hl|].
  unfold scans_with. revert Hown. apply Forall_impl. intros k Hk m' Hs.
  rewrite Hs in Hk. destruct c; simpl in Hk; [exact Hk | destruct Hk ..].
Qed.

Lemma run_keeps_memory policy d : keeps keeps_memory (Runner_run E policy d).
Proof.
  apply keeps_run_from_handlers.
  - intros st. split; [reflexivity|]. exists []. rewrite app_nil_r.
    split; [reflexivity|constructor].
  - intros a b c (M1 & l1 & E1 & S1) (M2 & l2 & E2 & S2).
    split; [congruence|]. exists (l1 ++ l2).
    rewrite E2, E1, app_assoc. split; [reflexivity|].
    apply Forall_app. split; [exact S1|]. now rewrite <- M1.
  - intros c st. split; [reflexivity|]. exists []. simpl.
    rewrite app_nil_r. split; [reflexivity|constructor].
  - apply handler_keeps_memory.
Qed.

(** X7.  [plan] stores the memory it is given, nothing in the run changes
    it, and every call to the scanner during the run is given exactly that
    memory. *)
Theorem plan_memory policy d (mem : list string) (st : State World) :
  memory (snd (plan E policy d mem st)) = Some mem /\
  exists l,
    calls (snd (plan E policy d mem st)) = calls st ++ l /\
    forall k m, In k l -> target k = Scan m -> m = Some mem.
Proof.
  destruct (run_keeps_memory policy d (plan_start mem st))
    as (Hm & l & Hl & Hs).
  assert (P : memory (snd (plan E policy d mem st))
              = memory (snd (Runner_run E policy d (plan_start mem st)))).
  { rewrite plan_eq.
    now destruct (Runner_run E policy d (plan_start mem st)) as [[v|e] st1]. }
  destruct (plan_state E policy d mem st) as (_ & Hc & _).
  split; [now rewrite P, Hm|].
  exists l. rewrite Hc. split; [exact Hl|].
  intros k m Hk Ht. unfold scans_with in Hs.
  rewrite Forall_forall in Hs. exact (Hs k Hk m Ht).
Qed.

(** *** One notification, one Opportunity *)

(** What a stretch of a run did to the slot, read off the calls to the
    transport that returned: none, and the slot is as before; or, from an
    empty slot, exactly one, and the slot holds the Opportunity built from
    the arguments of that call. *)
Definition notified_once (st st' : State World) : Prop :=
  exists l,
    calls st' = calls st ++ l /\
    match opportunity st, filter sent l with
    | _, [] => opportunity st' = opportunity st
    | None, [k] =>
        exists d p e u,
          target k = Notify d p e u /\
          opportunity st' = Some (captured d p e u)
    | _, _ => False
    end.

Lemma notified_once_refl st : notified_once st st.
Proof.
  exists []. rewrite app_nil_r. split; [reflexivity|].
  simpl. now destruct (opportunity st).
Qed.

Lemma notified_once_trans a b c :
  notified_once a b -> notified_once b c -> notified_once a c.
Proof.
  intros (l1 & E1 & H1) (l2 & E2 & H2). exists (l1 ++ l2).
  rewrite E2, E1, app_assoc, filter_app. split; [reflexivity|].
  destruct (filter sent l1) as [|k1 [|k1' r1]].
  - assert (Hb : opportunity b = opportunity a)
      by (destruct (opportunity a); exact H1).
    simpl. rewrite Hb in H2. exact H2.
  - destruct (opportunity a); [destruct H1|].
    destruct H1 as (d & p & e & u & Hk & Hb). rewrite Hb in H2.
    destruct (filter sent l2) as [|k2 r2]; [|destruct H2].
    simpl. exists d, p, e, u. split; [exact Hk|]. now rewrite H2.
  - now destruct (opportunity a).
Qed.

Lemma notified_once_silent (st st' : State World) :
  opportunity st' = opportunity st ->
  (exists l, calls st' = calls st ++ l /\ filter sent l = []) ->
  notified_once st st'.
Proof.
  intros Ho (l & Hl & Hf). exists l. split; [exact Hl|]. rewrite Hf.
  now destruct (opportunity st).
Qed.

Lemma notified_once_frame : frame notified_once.
Proof.
  split.
  - apply notified_once_refl.
  - apply notified_once_trans.
  - intros msg st. apply notified_once_silent; [reflexivity|].
    exists []. simpl. now rewrite app_nil_r.
  - intros A sv f Hsv st. unfold call_service.
    destruct (f (world st)) as [r w]. apply notified_once_silent;
      [reflexivity|].
    eexists. split; [reflexivity|]. simpl. unfold sent. now rewrite Hsv.
Qed.

Lemma notified_once_notify d p e u :
  keeps notified_once (notify_user_of_deal E d p e u).
Proof.
  intros st.
  destruct (notify_cases E d p e u st) as [o Ho | w Ho Hn | e' w Ho Hn];
    [ rewrite (notify_when_captured E _ _ _ _ _ _ Ho)
    | rewrite (notify_when_sent E _ _ _ _ _ _ Ho Hn)
    | rewrite (notify_when_transport_raises E _ _ _ _ _ _ _ Ho Hn) ];
    cbn [snd].
  - apply notified_once_silent; [reflexivity|]. exists []. simpl.
    now rewrite app_nil_r.
  - eexists. split; [reflexivity|]. rewrite Ho. simpl.
    exists d, p, e, u. now split.
  - apply notified_once_silent; [simpl; now rewrite Ho|].
    eexists. split; [reflexivity|]. reflexivity.
Qed.

(** X8.  In one run at most one call to the notification transport
    returns.  If none does, [plan] leaves the slot none; if one does, the
    slot holds the Opportunity built from the arguments of that very call:
    its description, price, estimate and locator, and their difference as
    discount.  What [plan] returns is that slot. *)
Theorem plan_notifies_once policy d mem (st : State World) :
  exists l,
    calls (snd (plan E policy d mem st)) = calls st ++ l /\
    match filter sent l with
    | [] => opportunity (snd (plan E policy d mem st)) = None
    | [k] =>
        exists description deal_price estimated_true_value url,
          target k = Notify description deal_price estimated_true_value url /\
          opportunity (snd (plan E policy d mem st))
          = Some {| deal := {| product_description := description;
                               price := deal_price; url := url |};
                    estimate := estimated_true_value;
                    discount := F64.sub estimated_true_value deal_price |}
    | _ => False
    end /\
    forall v, fst (plan E policy d mem st) = Returned v ->
              v = opportunity (snd (plan E policy d mem st)).
Proof.
  destruct (keeps_Runner_run notified_once notified_once_frame E
              (fun c st0 => notified_once_silent st0 _ eq_refl
                              (ex_intro _ [] (conj (eq_sym (app_nil_r _)) eq_refl)))
              notified_once_notify policy d (plan_start mem st))
    as (l & Hl & H).
  destruct (plan_state E policy d mem st) as (Ho & Hc & _).
  exists l. rewrite Hc, Ho. split; [exact Hl|]. split.
  - simpl in H. exact H.
  - intros v Hv. apply plan_result in Hv. now rewrite Hv, Ho.
Qed.

(** *** Tools that report errors *)



End WholeRuns.

